(** * opencode-kit: the GitHub pull-request tools

  A shallow embedding of the three tool wrappers under [.opencode/tool/]
  ([github-pr.ts], [github-pr-comments.ts], [github-pr-review.ts]) and the
  properties their specification states about them.

  Conventions of the embedding.
  - A JavaScript string is a [string] of code units below 256.
  - A JavaScript number that holds an integer is a [Z]; [NaN] and the
    infinities are kept apart ([jsnum]).  What [parseInt] reads is rounded
    to the nearest double, and a number is printed as JavaScript prints a
    double.
  - An exception is a value of [exn]; code that may throw returns [res].
  - The [gh] command line client is an oracle ([World]); every process
    invocation is recorded in a trace.
  - [JSON.stringify(v)] is modelled by the tree [stringify v] it prints:
    the tree of [v] without the properties whose value is [undefined]. *)

From Stdlib Require Import ZArith List String Ascii Bool Lia.
From Stdlib Require Import DecimalString DecimalPos.
From Stdlib Require Import Permutation Sorted.
Import ListNotations.

Local Open Scope string_scope.
Local Open Scope Z_scope.

Set Warnings "-register-all".

(* ================================================================== *)
(** * JavaScript primitives used by the tools *)

Module Js.

(** A thrown value: an [Error] instance with its message, or anything
    else ([error instanceof Error] is false). *)
Inductive exn : Type :=
| JsError (message : string)
| NonError.

(** Result of code that may throw. *)
Inductive res (A : Type) : Type :=
| Ok (a : A)
| Throw (e : exn).
Arguments Ok {A} a.
Arguments Throw {A} e.

(** Numbers as [parseInt] produces them: a double that holds an integer,
    [NaN], or an infinity. *)
Inductive jsnum : Type :=
| Int (z : Z)
| NaN
| PosInf
| NegInf.

Definition isNaN (n : jsnum) : bool :=
  match n with NaN => true | _ => false end.

(** The decimal digits of an integer. *)
Definition string_of_Z (z : Z) : string :=
  NilZero.string_of_int (Z.to_int z).

(** The double nearest to a natural number, ties to the even mantissa:
    every integer below 2^53 is a double; above, the 53 leading bits are
    kept and the rest is rounded.  The result can reach 2^1024, which is
    no double any more. *)
Definition round_magnitude (a : Z) : Z :=
  if a <? 2 ^ 53 then a
  else
    let e := Z.log2 a - 52 in
    let q := a / 2 ^ e in
    let r := a mod 2 ^ e in
    let half := 2 ^ (e - 1) in
    let q' :=
      if r <? half then q
      else if half <? r then q + 1
      else if Z.even q then q else q + 1 in
    q' * 2 ^ e.

(** The Number value of a mathematical integer: the nearest double, an
    infinity beyond the largest one. *)
Definition to_double (z : Z) : jsnum :=
  let v := round_magnitude (Z.abs z) in
  if 2 ^ 1024 <=? v then (if z <? 0 then NegInf else PosInf)
  else Int (Z.sgn z * v).

(** The number of decimal digits of a positive integer. *)
Definition ndigits (a : Z) : Z := Z.of_nat (String.length (string_of_Z a)).

(** The decimal with [k] significant digits that reads back as the double
    [a], if there is one: the multiple of 10^(n-k) below or above [a], the
    nearer one if both do, the one with the even last digit on a tie. *)
Definition candidate (a k : Z) : option Z :=
  let p := 10 ^ Z.max 0 (ndigits a - k) in
  let lo := a / p * p in
  let hi := lo + p in
  let reads v := match to_double v with Int b => b =? a | _ => false end in
  match reads lo, reads hi with
  | true, true =>
      Some (if a - lo <? hi - a then lo
            else if hi - a <? a - lo then hi
            else if Z.even (a / p) then lo else hi)
  | true, false => Some lo
  | false, true => Some hi
  | false, false => None
  end.

Fixpoint shortest_from (fuel : nat) (a k : Z) : Z :=
  match fuel with
  | O => a
  | S fuel' =>
      match candidate a k with
      | Some v => v
      | None => shortest_from fuel' a (k + 1)
      end
  end.

(** The decimal with the fewest significant digits that reads back as the
    double [a] (17 digits always do); below 2^53 it is [a] itself. *)
Definition shortest_decimal (a : Z) : Z :=
  if a <? 2 ^ 53 then a else shortest_from 17 a 1.

Fixpoint strip_zeros (s : string) : string :=
  match s with
  | String c r =>
      match strip_zeros r with
      | EmptyString => if Ascii.eqb c "0" then EmptyString else String c EmptyString
      | t => String c t
      end
  | EmptyString => EmptyString
  end.

(** [d.ddde+x], for the numbers from 10^21 on. *)
Definition exponent_form (v : Z) : string :=
  match strip_zeros (string_of_Z v) with
  | String d EmptyString => String d "e+" ++ string_of_Z (ndigits v - 1)
  | String d rest => String d "." ++ rest ++ "e+" ++ string_of_Z (ndigits v - 1)
  | EmptyString => EmptyString
  end.

(** [String(n)] for a double that holds an integer, as a template literal
    prints it: the shortest decimal that reads back as [n], written out
    with its zeros below 10^21 and with an exponent from there on. *)
Definition number_to_string (z : Z) : string :=
  let v := shortest_decimal (Z.abs z) in
  (if z <? 0 then "-" else "")
  ++ (if v <? 10 ^ 21 then string_of_Z v else exponent_form v).

Definition string_of_jsnum (n : jsnum) : string :=
  match n with
  | Int z => number_to_string z
  | NaN => "NaN"
  | PosInf => "Infinity"
  | NegInf => "-Infinity"
  end.

(** Truthiness of a string: the empty string is falsy. *)
Definition truthy (s : string) : bool :=
  match s with EmptyString => false | String _ _ => true end.

(** Truthiness of a number: [0] is falsy. *)
Definition truthy_num (z : Z) : bool := negb (z =? 0).

(** [s || d] on strings. *)
Definition or_else (s d : string) : string :=
  if truthy s then s else d.

Definition is_digit (c : ascii) : bool :=
  let n := nat_of_ascii c in (48 <=? n)%nat && (n <=? 57)%nat.

Definition digit_val (c : ascii) : Z := Z.of_nat (nat_of_ascii c) - 48.

(** White space and line terminators that [parseInt] skips, among the
    code units below 256: TAB, LF, VT, FF, CR, SP, NBSP. *)
Definition is_space (c : ascii) : bool :=
  let n := nat_of_ascii c in
  ((9 <=? n)%nat && (n <=? 13)%nat) || (n =? 32)%nat || (n =? 160)%nat.

Fixpoint trimStart (s : string) : string :=
  match s with
  | String c s' => if is_space c then trimStart s' else s
  | EmptyString => EmptyString
  end.

Fixpoint trimEnd (s : string) : string :=
  match s with
  | String c s' =>
      match trimEnd s' with
      | EmptyString => if is_space c then EmptyString else String c EmptyString
      | t => String c t
      end
  | EmptyString => EmptyString
  end.

(** [s.trim()]. *)
Definition trim (s : string) : string := trimEnd (trimStart s).

(** The longest prefix of decimal digits. *)
Fixpoint take_digits (s : string) : string :=
  match s with
  | String c s' => if is_digit c then String c (take_digits s') else EmptyString
  | EmptyString => EmptyString
  end.

(** Value of a digit string, most significant digit first. *)
Fixpoint decimal_from (acc : Z) (s : string) : Z :=
  match s with
  | String c s' => decimal_from (10 * acc + digit_val c) s'
  | EmptyString => acc
  end.

Definition decimal (s : string) : Z := decimal_from 0 s.

(** [parseInt(s, 10)]: skip leading white space, read an optional sign,
    then the longest run of decimal digits; [NaN] when that run is empty,
    otherwise the double nearest to the signed value of the run (as V8 and
    JavaScriptCore compute it).  Whatever follows the digits is ignored. *)
Definition parseInt (s : string) : jsnum :=
  let t := trimStart s in
  let '(sign, body) :=
    match t with
    | String c r =>
        if Ascii.eqb c "-" then (-1, r)
        else if Ascii.eqb c "+" then (1, r)
        else (1, t)
    | EmptyString => (1, t)
    end in
  let ds := take_digits body in
  match ds with
  | EmptyString => NaN
  | _ => to_double (sign * decimal ds)
  end.

(** [s.split("/")]: the pieces between the separators, never empty. *)
Fixpoint split_slash (s : string) : list string :=
  match s with
  | EmptyString => [EmptyString]
  | String c s' =>
      if Ascii.eqb c "/" then EmptyString :: split_slash s'
      else match split_slash s' with
           | h :: t => String c h :: t
           | [] => [String c EmptyString]
           end
  end.

(** [s.includes(p)]. *)
Fixpoint includes (s p : string) : bool :=
  String.prefix p s ||
  match s with
  | String _ s' => includes s' p
  | EmptyString => false
  end.

End Js.
Export Js.

(* ================================================================== *)
(** * The regular expression of [parsePrReference]

  [/github\.com\/([^\/]+)\/([^\/]+)\/pull\/(\d+)/], matched the way a
  backtracking engine does: every piece returns its alternatives in the
  order the engine tries them (a greedy [+] offers the longest run first),
  the pieces are chained, the first complete alternative at the leftmost
  start position is the match. *)

Module Regex.

(** A literal: the rest of the input after it, when the input starts
    with it. *)
Fixpoint lit (p s : string) : list string :=
  match p, s with
  | EmptyString, _ => [s]
  | String a p', String b s' => if Ascii.eqb a b then lit p' s' else []
  | String _ _, EmptyString => []
  end.

Definition extend (c : ascii) (m : string * string) : string * string :=
  (String c (fst m), snd m).

(** [cls*], greedy: (matched, rest), longest first. *)
Fixpoint star (cls : ascii -> bool) (s : string) : list (string * string) :=
  match s with
  | String c s' =>
      if cls c then map (extend c) (star cls s') ++ [(EmptyString, s)]
      else [(EmptyString, s)]
  | EmptyString => [(EmptyString, EmptyString)]
  end.

(** [cls+], greedy. *)
Definition plus (cls : ascii -> bool) (s : string) : list (string * string) :=
  match s with
  | String c s' => if cls c then map (extend c) (star cls s') else []
  | EmptyString => []
  end.

Definition not_slash (c : ascii) : bool := negb (Ascii.eqb c "/").

(** All the ways the pattern matches at the start of [s], with the three
    captures, in the engine's order. *)
Definition url_at (s : string) : list (string * string * string) :=
  flat_map (fun r1 =>
  flat_map (fun '(owner, r2) =>
  flat_map (fun r3 =>
  flat_map (fun '(repo, r4) =>
  flat_map (fun r5 =>
  map (fun '(num, _) => (owner, repo, num)) (plus is_digit r5))
    (lit "/pull/" r4))
    (plus not_slash r3))
    (lit "/" r2))
    (plus not_slash r1))
    (lit "github.com/" s).

(** [pr.match(re)]: the captures of the leftmost match, or [None]
    ([null]). *)
Fixpoint urlMatch (s : string) : option (string * string * string) :=
  match url_at s with
  | m :: _ => Some m
  | [] =>
      match s with
      | String _ s' => urlMatch s'
      | EmptyString => None
      end
  end.

(** [/\{[\s\S]*\}/] of the review tool's error handler: an opening
    brace, anything (greedy), a closing brace; the whole match. *)
Definition any_char (c : ascii) : bool := true.

Definition braces_at (s : string) : list string :=
  flat_map (fun r1 =>
  flat_map (fun '(inner, r2) =>
  map (fun _ => "{" ++ inner ++ "}") (lit "}" r2))
    (star any_char r1))
    (lit "{" s).

Fixpoint bracesMatch (s : string) : option string :=
  match braces_at s with
  | m :: _ => Some m
  | [] =>
      match s with
      | String _ s' => bracesMatch s'
      | EmptyString => None
      end
  end.

End Regex.
Export Regex.

(* ================================================================== *)
(** * [parsePrReference] (the same function in the three tools) *)

Module PrRef.

Record PrReference : Type := mkRef {
  owner : string;
  repo : string;
  number : jsnum
}.

Definition invalid_message (pr : string) : string :=
  "Invalid PR reference: " ++ pr ++ ". Provide a PR URL or number.".

Definition parsePrReference (pr : string) (repoArg : option string)
  : res PrReference :=
  match urlMatch pr with
  | Some (o, r, n) => Ok (mkRef o r (parseInt n))
  | None =>
      let num := parseInt pr in
      if negb (isNaN num) then
        let ambient := Ok (mkRef "" "" num) in
        match repoArg with
        | Some rp =>
            if truthy rp then
              let parts := split_slash rp in
              match nth_error parts 0, nth_error parts 1 with
              | Some o, Some r =>
                  if truthy o && truthy r then Ok (mkRef o r num) else ambient
              | _, _ => ambient
              end
            else ambient
        | None => ambient
        end
      else Throw (JsError (invalid_message pr))
  end.

End PrRef.
Export PrRef.

(* ================================================================== *)
(** * JSON trees *)

Module Json.

Inductive json : Type :=
| JUndef
| JNull
| JBool (b : bool)
| JNum (z : Z)
| JStr (s : string)
| JArr (items : list json)
| JObj (fields : list (string * json)).

(** What [JSON.stringify] prints of a value: a property whose value is
    [undefined] is left out, an [undefined] array item is printed as
    [null]. *)
Fixpoint stringify (j : json) : json :=
  match j with
  | JArr l =>
      JArr (map (fun x => match stringify x with JUndef => JNull | y => y end) l)
  | JObj l =>
      JObj ((fix fields (l : list (string * json)) : list (string * json) :=
               match l with
               | [] => []
               | (k, v) :: t =>
                   match v with
                   | JUndef => fields t
                   | _ => (k, stringify v) :: fields t
                   end
               end) l)
  | _ => j
  end.

(** Own property lookup on a list of fields. *)
Fixpoint lookup (k : string) (l : list (string * json)) : option json :=
  match l with
  | [] => None
  | (k', v) :: t => if String.eqb k k' then Some v else lookup k t
  end.

(** The property [k] of an object, when it is there. *)
Definition field (k : string) (j : json) : option json :=
  match j with JObj l => lookup k l | _ => None end.

(** The names of the properties of an object, in order. *)
Definition keys (j : json) : list string :=
  match j with JObj l => map fst l | _ => [] end.

Definition has_field (k : string) (j : json) : bool :=
  match field k j with Some _ => true | None => false end.

(** [j.k] as JavaScript evaluates it: a [TypeError] on [null] and
    [undefined], [undefined] for a property that is not there. *)
Definition get_prop (j : json) (k : string) : res json :=
  match j with
  | JUndef | JNull => Throw (JsError ("undefined is not an object (evaluating '" ++ k ++ "')"))
  | JObj l => Ok (match lookup k l with Some v => v | None => JUndef end)
  | _ => Ok JUndef
  end.

Definition json_of_jsnum (n : jsnum) : json :=
  match n with Int z => JNum z | NaN | PosInf | NegInf => JNull end.

Definition json_of_opt_num (n : option Z) : json :=
  match n with Some z => JNum z | None => JNull end.

(** The structured error object [{ error: msg }]. *)
Definition error_object (msg : string) : json := JObj [("error", JStr msg)].

(** A result is a structured error when it is an object whose [error]
    property is a string. *)
Definition is_error_object (j : json) : bool :=
  match field "error" j with Some (JStr _) => true | _ => false end.

End Json.
Export Json.
(* ================================================================== *)
(** * The [gh] command line client

  Every [Bun.$`gh ...`] of the tools is a process invocation.  The oracle
  answers it with the value the tool reads from its output, of the type
  the source annotates, or with the value thrown: a failure of the
  process, of [JSON.parse] on its output, or of a read on an output of
  another shape all throw inside the same [try] block and are one
  [Throw] of the oracle. *)

Module Gh.

Record Commit : Type := mkCommit {
  messageHeadline : string;
  messageBody : string
}.

Record FileChange : Type := mkFile {
  f_path : string;
  f_additions : Z;
  f_deletions : Z
}.

Record Metadata : Type := mkMetadata {
  m_number : Z;
  m_title : string;
  m_body : string;
  m_author_login : string;
  m_baseRefName : string;
  m_headRefName : string;
  m_state : string;
  m_isDraft : bool;
  m_additions : Z;
  m_deletions : Z;
  m_changedFiles : Z;
  m_commits : list Commit;
  m_createdAt : string;
  m_updatedAt : string;
  m_url : string
}.

Record RawReviewComment : Type := mkRawReviewComment {
  rc_id : Z;
  rc_path : string;
  rc_line : option Z;
  rc_original_line : option Z;
  rc_side : string;
  rc_body : string;
  rc_user_login : string;
  rc_created_at : string;
  rc_updated_at : string;
  rc_in_reply_to_id : option Z;
  rc_diff_hunk : string;
  rc_html_url : string
}.

Record RawIssueComment : Type := mkRawIssueComment {
  ic_id : Z;
  ic_body : string;
  ic_user_login : string;
  ic_created_at : string;
  ic_updated_at : string;
  ic_html_url : string
}.

Record RawReview : Type := mkRawReview {
  rv_id : Z;
  rv_state : string;
  rv_body : string;
  rv_user_login : string;
  rv_submitted_at : string;
  rv_html_url : string
}.

Record ReviewResponse : Type := mkResponse {
  rs_id : Z;
  rs_html_url : string;
  rs_state : string;
  rs_submitted_at : string
}.

(** The process invocations of the three tools. *)
Inductive call : Type :=
| PrViewMetadata (number : jsnum) (repoFlag : string)
| PrDiff (number : jsnum) (repoFlag : string)
| PrViewFiles (number : jsnum) (repoFlag : string)
| PrViewCommits (number : jsnum) (repoFlag : string)
| RepoView
| ApiHeadSha (repoContext : string) (number : jsnum)
| ApiReviewComments (repoContext : string) (number : jsnum)
| ApiIssueComments (repoContext : string) (number : jsnum)
| ApiReviews (repoContext : string) (number : jsnum)
| ApiPostReview (repoContext : string) (number : jsnum) (input : json).


Record World : Type := mkWorld {
  pr_view_metadata : jsnum -> string -> res Metadata;
  pr_diff : jsnum -> string -> res string;
  pr_view_files : jsnum -> string -> res (list FileChange);
  pr_view_commits : jsnum -> string -> res (list Commit);
  repo_view : res string;
  api_head_sha : string -> jsnum -> res string;
  api_review_comments : string -> jsnum -> res (list RawReviewComment);
  api_issue_comments : string -> jsnum -> res (list RawIssueComment);
  api_reviews : string -> jsnum -> res (list RawReview);
  (** What the Bun shell throws for the command that is to post a review
      ([gh api ... --input - <<< payload]): it rejects the here-string
      before [gh] is started.  The arguments are those of the command. *)
  post_command : string -> jsnum -> json -> exn;
  (** [JSON.parse] on a piece of an error message; [None] when it throws. *)
  json_parse : string -> option json
}.

(** Computations that call [gh]: they read the oracle, append to the
    trace of invocations, and return or throw. *)
Definition M (A : Type) : Type := World -> list call -> res A * list call.

Definition ret {A} (a : A) : M A := fun _ t => (Ok a, t).

Definition throw {A} (e : exn) : M A := fun _ t => (Throw e, t).

Definition bind {A B} (m : M A) (k : A -> M B) : M B :=
  fun w t =>
    match m w t with
    | (Ok a, t') => k a w t'
    | (Throw e, t') => (Throw e, t')
    end.

(** [try { m } catch (error) { h error }]. *)
Definition try_catch {A} (m : M A) (h : exn -> M A) : M A :=
  fun w t =>
    match m w t with
    | (Ok a, t') => (Ok a, t')
    | (Throw e, t') => h e w t'
    end.

(** Lift code that may throw and calls nothing. *)
Definition lift {A} (r : res A) : M A := fun _ t => (r, t).

(** One process invocation: recorded, then answered by the oracle. *)
Definition invoke {A} (c : call) (answer : World -> res A) : M A :=
  fun w t => (answer w, (t ++ [c])%list).

(** The oracle itself, for the parts of it that are no invocation
    ([JSON.parse]). *)
Definition world : M World := fun w t => (Ok w, t).

(** A shell command that is rejected before any process is started:
    nothing is recorded, the error is thrown. *)
Definition rejected {A} (error : World -> exn) : M A :=
  fun w t => (Throw (error w), t).

(** Running a tool from an empty trace. *)
Definition run {A} (m : M A) (w : World) : res A * list call := m w [].

End Gh.
Export Gh.

Notation "x <- m ;; k" := (Gh.bind m (fun x => k))
(at level 61, m at next level, right associativity).

(* ================================================================== *)
(** * [github-pr.ts]: the snapshot tool *)

Module SnapshotTool.

(** The size category of [additions + deletions]. *)
Definition sizeCategory (totalLinesChanged : Z) : string :=
  if totalLinesChanged <=? 100 then "small"
  else if totalLinesChanged <=? 500 then "medium"
  else if totalLinesChanged <=? 1000 then "large"
  else "very large".

Definition repoFlag (parsed : PrReference) : string :=
  if truthy (owner parsed) && truthy (repo parsed)
  then "-R " ++ owner parsed ++ "/" ++ repo parsed
  else "".

Definition file_json (f : FileChange) : json :=
  JObj [("path", JStr (f_path f));
        ("additions", JNum (f_additions f));
        ("deletions", JNum (f_deletions f))].

Definition commit_json (c : Commit) : json :=
  JObj [("headline", JStr (messageHeadline c));
        ("body", if truthy (messageBody c) then JStr (messageBody c) else JUndef)].

Definition output (metadata : Metadata) (diffResult : string)
    (files : list FileChange) (commits : list Commit) : json :=
  let totalLinesChanged := m_additions metadata + m_deletions metadata in
  JObj [
    ("metadata", JObj [
       ("number", JNum (m_number metadata));
       ("title", JStr (m_title metadata));
       ("description", JStr (or_else (m_body metadata) "(no description)"));
       ("author", JStr (m_author_login metadata));
       ("baseRef", JStr (m_baseRefName metadata));
       ("headRef", JStr (m_headRefName metadata));
       ("state", JStr (m_state metadata));
       ("isDraft", JBool (m_isDraft metadata));
       ("url", JStr (m_url metadata));
       ("createdAt", JStr (m_createdAt metadata));
       ("updatedAt", JStr (m_updatedAt metadata))]);
    ("stats", JObj [
       ("additions", JNum (m_additions metadata));
       ("deletions", JNum (m_deletions metadata));
       ("totalLinesChanged", JNum totalLinesChanged);
       ("changedFiles", JNum (m_changedFiles metadata));
       ("sizeCategory", JStr (sizeCategory totalLinesChanged));
       ("commits", JNum (Z.of_nat (List.length (m_commits metadata))))]);
    ("files", JArr (map file_json files));
    ("commitMessages", JArr (map commit_json commits));
    ("diff", JStr (trim diffResult))].

(** The [catch] block. *)
Definition on_error (parsed : PrReference) (error : exn) : json :=
  match error with
  | JsError message =>
      if includes message "gh: command not found" then
        error_object "GitHub CLI (gh) is not installed. Please install it from https://cli.github.com/"
      else if includes message "not logged in" then
        error_object "Not authenticated with GitHub. Please run 'gh auth login' first."
      else if includes message "Could not resolve" then
        error_object ("Could not find PR #" ++ string_of_jsnum (number parsed)
                      ++ ". Make sure you're in a git repository or provide the full PR URL.")
      else error_object message
  | NonError => error_object "An unknown error occurred"
  end.

(** [execute(args)]; the tree returned stands for the string
    [JSON.stringify] prints of it. *)
Definition execute (pr : string) (repoArg : option string) : M json :=
  parsed <- lift (parsePrReference pr repoArg) ;;
  let n := number parsed in
  let flag := repoFlag parsed in
  try_catch
    (metadata <- invoke (PrViewMetadata n flag) (fun w => pr_view_metadata w n flag) ;;
     diffResult <- invoke (PrDiff n flag) (fun w => pr_diff w n flag) ;;
     files <- invoke (PrViewFiles n flag) (fun w => pr_view_files w n flag) ;;
     commits <- invoke (PrViewCommits n flag) (fun w => pr_view_commits w n flag) ;;
     ret (stringify (output metadata diffResult files commits)))
    (fun error => ret (stringify (on_error parsed error))).

End SnapshotTool.

(* ================================================================== *)
(** * [github-pr-comments.ts]: the comment tool *)

Module CommentsTool.

Definition lower (c : ascii) : ascii :=
  let n := nat_of_ascii c in
  if (65 <=? n)%nat && (n <=? 90)%nat then ascii_of_nat (n + 32) else c.

Fixpoint toLower (s : string) : string :=
  match s with
  | String c s' => String (lower c) (toLower s')
  | EmptyString => EmptyString
  end.

Fixpoint ends_with (s p : string) : bool :=
  String.eqb s p ||
  match s with
  | String _ s' => ends_with s' p
  | EmptyString => false
  end.

(** The two shapes of [botPatterns]: [/p$/i] and [/^p$/i]. *)
Inductive pattern : Type :=
| Suffix (p : string)
| Whole (p : string).

Definition botPatterns : list pattern :=
  [Suffix "[bot]"; Suffix "bot"; Whole "github-actions"; Whole "dependabot";
   Whole "renovate"; Whole "codecov"; Whole "sonarcloud"; Whole "netlify";
   Whole "vercel"].

Definition test (login : string) (p : pattern) : bool :=
  match p with
  | Suffix q => ends_with (toLower login) q
  | Whole q => String.eqb (toLower login) q
  end.

Definition isLikelyBot (login : string) : bool :=
  existsb (test login) botPatterns.

Record ReviewComment : Type := mkReviewComment {
  id : Z;
  path : string;
  line : option Z;
  originalLine : option Z;
  side : string;
  body : string;
  author : string;
  isBot : bool;
  createdAt : string;
  updatedAt : string;
  inReplyToId : option Z;
  diffHunk : string;
  url : string
}.

Record IssueComment : Type := mkIssueComment {
  i_id : Z;
  i_body : string;
  i_author : string;
  i_isBot : bool;
  i_createdAt : string;
  i_updatedAt : string;
  i_url : string
}.

Record Review : Type := mkReview {
  r_id : Z;
  r_state : string;
  r_body : string;
  r_author : string;
  r_isBot : bool;
  r_submittedAt : string;
  r_url : string
}.

(** [x || null] on an optional number: [undefined] and [0] give [null]. *)
Definition or_null (x : option Z) : option Z :=
  match x with
  | Some z => if truthy_num z then Some z else None
  | None => None
  end.

Definition toReviewComment (c : RawReviewComment) : ReviewComment :=
  mkReviewComment (rc_id c) (rc_path c) (rc_line c) (rc_original_line c)
    (rc_side c) (rc_body c) (rc_user_login c) (isLikelyBot (rc_user_login c))
    (rc_created_at c) (rc_updated_at c) (or_null (rc_in_reply_to_id c))
    (rc_diff_hunk c) (rc_html_url c).

Definition toIssueComment (c : RawIssueComment) : IssueComment :=
  mkIssueComment (ic_id c) (ic_body c) (ic_user_login c)
    (isLikelyBot (ic_user_login c)) (ic_created_at c) (ic_updated_at c)
    (ic_html_url c).

Definition toReview (r : RawReview) : Review :=
  mkReview (rv_id r) (rv_state r) (or_else (rv_body r) "") (rv_user_login r)
    (isLikelyBot (rv_user_login r)) (rv_submitted_at r) (rv_html_url r).

(** [r.state !== "PENDING"]. *)
Definition not_pending (r : RawReview) : bool :=
  negb (String.eqb (rv_state r) "PENDING").

Definition reviewsOf (reviewsRaw : list RawReview) : list Review :=
  map toReview (filter not_pending reviewsRaw).

(** [!c.inReplyToId]: [null] and [0] are falsy. *)
Definition is_top_level (c : ReviewComment) : bool :=
  match inReplyToId c with
  | Some z => negb (truthy_num z)
  | None => true
  end.

(** [c.inReplyToId === parent.id]. *)
Definition replies_to (parent c : ReviewComment) : bool :=
  match inReplyToId c with
  | Some z => z =? id parent
  | None => false
  end.

Record Thread : Type := mkThread {
  parent : ReviewComment;
  replies : list ReviewComment
}.

Definition threadsOf (reviewComments : list ReviewComment) : list Thread :=
  let topLevelComments := filter is_top_level reviewComments in
  map (fun p => mkThread p (filter (replies_to p) reviewComments))
      topLevelComments.

(** ** [commentsByFile]

    A plain object used as a map from path to array.  A path that names a
    property every object inherits ([constructor], [toString], ...) reads
    as that inherited value: it is truthy, so no array is stored, and it
    has no [push], so the call throws a [TypeError]. *)

Definition object_prototype_keys : list string :=
  ["constructor"; "__defineGetter__"; "__defineSetter__"; "hasOwnProperty";
   "__lookupGetter__"; "__lookupSetter__"; "isPrototypeOf";
   "propertyIsEnumerable"; "toString"; "valueOf"; "__proto__";
   "toLocaleString"].

Definition push_not_a_function : string :=
  "commentsByFile[comment.path].push is not a function. (In 'commentsByFile[comment.path].push(comment)', 'commentsByFile[comment.path].push' is undefined)".

Definition ByFile : Type := list (string * list ReviewComment).

Fixpoint own (k : string) (o : ByFile) : option (list ReviewComment) :=
  match o with
  | [] => None
  | (k', v) :: t => if String.eqb k k' then Some v else own k t
  end.

(** [o[k].push(c)] when [k] is an own property. *)
Fixpoint push_at (k : string) (c : ReviewComment) (o : ByFile) : ByFile :=
  match o with
  | [] => []
  | (k', v) :: t =>
      if String.eqb k k' then (k', (v ++ [c])%list) :: t
      else (k', v) :: push_at k c t
  end.

(** One turn of the loop. *)
Definition add_comment (o : ByFile) (c : ReviewComment) : res ByFile :=
  match own (path c) o with
  | Some _ => Ok (push_at (path c) c o)
  | None =>
      if existsb (String.eqb (path c)) object_prototype_keys
      then Throw (JsError push_not_a_function)
      else Ok (o ++ [(path c, [c])])%list
  end.

Fixpoint group_from (o : ByFile) (cs : list ReviewComment) : res ByFile :=
  match cs with
  | [] => Ok o
  | c :: cs' =>
      match add_comment o c with
      | Ok o' => group_from o' cs'
      | Throw e => Throw e
      end
  end.

Definition commentsByFileOf (reviewComments : list ReviewComment) : res ByFile :=
  group_from [] reviewComments.

(** The order in which an object lists its own properties: the array
    indices (canonical decimal strings below 2^32 - 1) in ascending order,
    then the other names in the order they were added. *)
Definition is_array_index (k : string) : bool :=
  String.eqb (string_of_Z (decimal k)) k
  && String.eqb (take_digits k) k
  && (decimal k <? 4294967295).

Fixpoint insert_index (e : string * list ReviewComment) (o : ByFile) : ByFile :=
  match o with
  | [] => [e]
  | e' :: t =>
      if decimal (fst e) <? decimal (fst e') then e :: e' :: t
      else e' :: insert_index e t
  end.

Definition own_property_order (o : ByFile) : ByFile :=
  (fold_right insert_index [] (filter (fun e => is_array_index (fst e)) o)
   ++ filter (fun e => negb (is_array_index (fst e))) o)%list.

(** ** The output *)

Definition review_comment_json (c : ReviewComment) : json :=
  JObj [("id", JNum (id c));
        ("path", JStr (path c));
        ("line", json_of_opt_num (line c));
        ("originalLine", json_of_opt_num (originalLine c));
        ("side", JStr (side c));
        ("body", JStr (body c));
        ("author", JStr (author c));
        ("isBot", JBool (isBot c));
        ("createdAt", JStr (createdAt c));
        ("updatedAt", JStr (updatedAt c));
        ("inReplyToId", json_of_opt_num (inReplyToId c));
        ("diffHunk", JStr (diffHunk c));
        ("url", JStr (url c))].

Definition issue_comment_json (c : IssueComment) : json :=
  JObj [("id", JNum (i_id c));
        ("body", JStr (i_body c));
        ("author", JStr (i_author c));
        ("isBot", JBool (i_isBot c));
        ("createdAt", JStr (i_createdAt c));
        ("updatedAt", JStr (i_updatedAt c));
        ("url", JStr (i_url c))].

Definition review_json (r : Review) : json :=
  JObj [("id", JNum (r_id r));
        ("state", JStr (r_state r));
        ("body", JStr (r_body r));
        ("author", JStr (r_author r));
        ("isBot", JBool (r_isBot r));
        ("submittedAt", JStr (r_submittedAt r));
        ("url", JStr (r_url r))].

Definition thread_json (t : Thread) : json :=
  JObj [("parent", review_comment_json (parent t));
        ("replies", JArr (map review_comment_json (replies t)))].

Definition by_file_json (o : ByFile) : json :=
  JObj (map (fun e => (fst e, JArr (map review_comment_json (snd e))))
            (own_property_order o)).

Definition count {A} (l : list A) : Z := Z.of_nat (List.length l).

Definition stats_json (reviewComments : list ReviewComment)
    (issueComments : list IssueComment) (reviews : list Review)
    (commentsByFile : ByFile) (threads : list Thread) : json :=
  JObj [("totalReviewComments", JNum (count reviewComments));
        ("totalIssueComments", JNum (count issueComments));
        ("totalReviews", JNum (count reviews));
        ("filesWithComments", JNum (count commentsByFile));
        ("botComments", JNum (count (filter isBot reviewComments)
                              + count (filter i_isBot issueComments)));
        ("unresolvedThreads", JNum (count threads))].

Definition output (reviewComments : list ReviewComment)
    (issueComments : list IssueComment) (reviews : list Review)
    (commentsByFile : ByFile) (threads : list Thread) : json :=
  JObj [("stats", stats_json reviewComments issueComments reviews
                    commentsByFile threads);
        ("reviews", JArr (map review_json reviews));
        ("issueComments", JArr (map issue_comment_json issueComments));
        ("reviewComments", JArr (map review_comment_json reviewComments));
        ("commentsByFile", by_file_json commentsByFile);
        ("threads", JArr (map thread_json threads))].

Definition not_authenticated : json :=
  error_object "Not authenticated with GitHub. Please run 'gh auth login' first.".

Definition not_installed : json :=
  error_object "GitHub CLI (gh) is not installed. Please install it from https://cli.github.com/".

Definition no_repository : json :=
  error_object "Could not determine repository. Please provide the full PR URL or run from within a git repository.".

(** The [catch] block. *)
Definition on_error (error : exn) : json :=
  match error with
  | JsError message =>
      if includes message "gh: command not found" then not_installed
      else if includes message "not logged in" || includes message "401"
      then not_authenticated
      else error_object message
  | NonError => error_object "An unknown error occurred"
  end.

(** The repository the calls are made against: the one of the reference
    or, without one, what [gh repo view] answers.  [inl] is an early
    [return] of the tool. *)
Definition repoContextOf (parsed : PrReference) : M (json + string) :=
  if truthy (owner parsed) && truthy (repo parsed)
  then ret (inr (owner parsed ++ "/" ++ repo parsed))
  else try_catch
         (repoResult <- invoke RepoView repo_view ;;
          ret (inr (trim repoResult)))
         (fun _ => ret (inl (stringify no_repository))).

Definition execute (pr : string) (repoArg : option string) : M json :=
  parsed <- lift (parsePrReference pr repoArg) ;;
  let n := number parsed in
  ctx <- repoContextOf parsed ;;
  match ctx with
  | inl early => ret early
  | inr repoContext =>
      try_catch
        (reviewCommentsRaw <-
           invoke (ApiReviewComments repoContext n)
                  (fun w => api_review_comments w repoContext n) ;;
         let reviewComments := map toReviewComment reviewCommentsRaw in
         issueCommentsRaw <-
           invoke (ApiIssueComments repoContext n)
                  (fun w => api_issue_comments w repoContext n) ;;
         let issueComments := map toIssueComment issueCommentsRaw in
         reviewsRaw <-
           invoke (ApiReviews repoContext n)
                  (fun w => api_reviews w repoContext n) ;;
         let reviews := reviewsOf reviewsRaw in
         commentsByFile <- lift (commentsByFileOf reviewComments) ;;
         let threads := threadsOf reviewComments in
         ret (stringify (output reviewComments issueComments reviews
                           commentsByFile threads)))
        (fun error => ret (stringify (on_error error)))
  end.

End CommentsTool.

(* ================================================================== *)
(** * [github-pr-review.ts]: the review tool *)

Module ReviewTool.

Inductive Side : Type := LEFT | RIGHT.

Inductive Event : Type := COMMENT | APPROVE | REQUEST_CHANGES.

Definition side_string (s : Side) : string :=
  match s with LEFT => "LEFT" | RIGHT => "RIGHT" end.

Definition event_string (e : Event) : string :=
  match e with
  | COMMENT => "COMMENT"
  | APPROVE => "APPROVE"
  | REQUEST_CHANGES => "REQUEST_CHANGES"
  end.

(** An inline comment as [commentSchema] accepts it. *)
Record InlineComment : Type := mkInline {
  path : string;
  line : Z;
  side : option Side;
  startLine : option Z;
  startSide : option Side;
  body : string
}.

Record Args : Type := mkArgs {
  a_pr : string;
  a_repo : option string;
  a_body : string;
  a_event : option Event;
  a_comments : option (list InlineComment);
  a_dryRun : option bool
}.

Definition default {A} (d : A) (x : option A) : A :=
  match x with Some a => a | None => d end.

(** [if (c.side) comment.side = c.side] and its two siblings: the property
    is added only for a truthy value. *)
Definition when_side (k : string) (s : option Side) : list (string * json) :=
  match s with Some v => [(k, JStr (side_string v))] | None => [] end.

Definition when_line (k : string) (n : option Z) : list (string * json) :=
  match n with
  | Some z => if truthy_num z then [(k, JNum z)] else []
  | None => []
  end.

(** One entry of [reviewPayload.comments]. *)
Definition payload_comment (c : InlineComment) : json :=
  JObj ([("path", JStr (path c)); ("line", JNum (line c)); ("body", JStr (body c))]
        ++ when_side "side" (side c)
        ++ when_line "start_line" (startLine c)
        ++ when_side "start_side" (startSide c))%list.

Definition reviewPayload (commitId body : string) (event : Event)
    (comments : list InlineComment) : json :=
  JObj ([("commit_id", JStr commitId);
         ("body", JStr body);
         ("event", JStr (event_string event))]
        ++ (if (0 <? List.length comments)%nat
            then [("comments", JArr (map payload_comment comments))]
            else []))%list.

(** One entry of [wouldSubmit.inlineComments]. *)
Definition preview_comment (c : InlineComment) : json :=
  JObj [("file", JStr (path c));
        ("line", JNum (line c));
        ("startLine", match startLine c with Some z => JNum z | None => JUndef end);
        ("body", JStr (body c))].

Definition prUrl (repoContext : string) (n : jsnum) : string :=
  "https://github.com/" ++ repoContext ++ "/pull/" ++ string_of_jsnum n.

Definition dry_run_result (repoContext : string) (n : jsnum) (event : Event)
    (body : string) (comments : list InlineComment) : json :=
  JObj [("dryRun", JBool true);
        ("wouldSubmit", JObj [
           ("repository", JStr repoContext);
           ("pullRequest", json_of_jsnum n);
           ("prUrl", JStr (prUrl repoContext n));
           ("event", JStr (event_string event));
           ("reviewBody", JStr body);
           ("inlineComments", JArr (map preview_comment comments));
           ("totalInlineComments", JNum (Z.of_nat (List.length comments)))]);
        ("message", JStr "Dry run complete. No review was submitted. Remove --dry-run to submit the review.")].

Definition success_result (repoContext : string) (n : jsnum) (event : Event)
    (comments : list InlineComment) (response : ReviewResponse) : json :=
  JObj [("success", JBool true);
        ("reviewId", JNum (rs_id response));
        ("reviewUrl", JStr (rs_html_url response));
        ("state", JStr (rs_state response));
        ("submittedAt", JStr (rs_submitted_at response));
        ("summary", JObj [
           ("repository", JStr repoContext);
           ("pullRequest", json_of_jsnum n);
           ("event", JStr (event_string event));
           ("inlineCommentsPosted", JNum (Z.of_nat (List.length comments)))]);
        ("message", JStr ("Review submitted successfully. View it at: "
                          ++ rs_html_url response))].

Definition no_repository : json :=
  error_object "Could not determine repository. Please provide the full PR URL or run from within a git repository.".

Definition no_pr_details (error : exn) : json :=
  error_object ("Could not fetch PR details: "
                ++ match error with
                   | JsError message => message
                   | NonError => "unknown error"
                   end).

(** The inner [try] of the [catch] block: the API's error object, when
    the message holds one; [None] falls through to the generic errors. *)
Definition api_error_result (w : World) (message : string) : option json :=
  match bracesMatch message with
  | Some text =>
      match json_parse w text with
      | Some apiError =>
          match get_prop apiError "message", get_prop apiError "errors" with
          | Ok m, Ok es =>
              Some (JObj [("error", JStr "Failed to submit review");
                          ("message", m);
                          ("errors", es)])
          | _, _ => None
          end
      | None => None
      end
  | None => None
  end.

Definition generic_error (message : string) : json :=
  if includes message "gh: command not found" then
    error_object "GitHub CLI (gh) is not installed. Please install it from https://cli.github.com/"
  else if includes message "not logged in" || includes message "401" then
    error_object "Not authenticated with GitHub. Please run 'gh auth login' first."
  else if includes message "422" then
    JObj [("error", JStr "Invalid review submission. This often means a comment references a line that doesn't exist in the diff. Check that all line numbers are correct.");
          ("details", JStr message)]
  else error_object message.

(** The [catch] block of the submission. *)
Definition on_error (w : World) (error : exn) : json :=
  match error with
  | JsError message =>
      match api_error_result w message with
      | Some j => j
      | None => generic_error message
      end
  | NonError => error_object "An unknown error occurred"
  end.

Definition repoContextOf (parsed : PrReference) : M (json + string) :=
  if truthy (owner parsed) && truthy (repo parsed)
  then ret (inr (owner parsed ++ "/" ++ repo parsed))
  else try_catch
         (repoResult <- invoke RepoView repo_view ;;
          ret (inr (trim repoResult)))
         (fun _ => ret (inl (stringify no_repository))).

Definition commitIdOf (repoContext : string) (n : jsnum) : M (json + string) :=
  try_catch
    (prResult <- invoke (ApiHeadSha repoContext n)
                        (fun w => api_head_sha w repoContext n) ;;
     ret (inr (trim prResult)))
    (fun error => ret (inl (stringify (no_pr_details error)))).

(** [execute(args)].  The submission (lines 148 to 170) is written as a
    call of [gh api ... -X POST --input -] that is fed the payload through a
    here-string; the shell rejects that command, so the [try] block ends at
    its first statement and the [catch] block answers. *)
Definition execute (args : Args) : M json :=
  let body := a_body args in
  let event := default COMMENT (a_event args) in
  let comments := default [] (a_comments args) in
  let dryRun := default false (a_dryRun args) in
  parsed <- lift (parsePrReference (a_pr args) (a_repo args)) ;;
  let n := number parsed in
  ctx <- repoContextOf parsed ;;
  match ctx with
  | inl early => ret early
  | inr repoContext =>
      sha <- commitIdOf repoContext n ;;
      match sha with
      | inl early => ret early
      | inr commitId =>
          let payload := reviewPayload commitId body event comments in
          if dryRun then
            ret (stringify (dry_run_result repoContext n event body comments))
          else
            try_catch
              (let payloadJson := stringify payload in
               response <- rejected
                             (fun w => post_command w repoContext n payloadJson) ;;
               ret (stringify (success_result repoContext n event comments response)))
              (fun error => w <- world ;; ret (stringify (on_error w error)))
      end
  end.

End ReviewTool.

(* ================================================================== *)
(** * The words of the specification, as definitions to compare with *)

Module Spec.
Import CommentsTool.

(** "The reviews whose state is not PENDING, in input order": the
    selection read off the specification, one review at a time. *)
Inductive Submitted : list RawReview -> list Review -> Prop :=
| submitted_nil : Submitted [] []
| submitted_skip r raw out :
    rv_state r = "PENDING" -> Submitted raw out -> Submitted (r :: raw) out
| submitted_keep r raw out :
    rv_state r <> "PENDING" -> Submitted raw out ->
    Submitted (r :: raw) (toReview r :: out).

(** "A comment is a thread root iff its inReplyToId is absent/null." *)
Definition is_root (c : ReviewComment) : bool :=
  match inReplyToId c with None => true | Some _ => false end.

(** "Every comment in the input whose inReplyToId equals the root's id." *)
Definition is_reply_to (root c : ReviewComment) : bool :=
  match inReplyToId c with Some k => k =? id root | None => false end.

(** The comments the tool works on: what the mapping of the raw comments
    delivers. *)
Definition delivered (cs : list ReviewComment) : Prop :=
  exists raw, cs = map toReviewComment raw.

(** Strings all of whose characters are in a class. *)
Fixpoint all_chars (cls : ascii -> bool) (s : string) : bool :=
  match s with
  | String c s' => cls c && all_chars cls s'
  | EmptyString => true
  end.

(** The rest of the input does not continue a run of the class. *)
Definition stops (cls : ascii -> bool) (rest : string) : Prop :=
  match rest with String c _ => cls c = false | EmptyString => True end.

(** An owner or a repository name in a URL: not empty, no slash. *)
Definition segment (s : string) : Prop :=
  s <> "" /\ all_chars not_slash s = true.

(** A digit string, not empty. *)
Definition digits (s : string) : Prop :=
  s <> "" /\ all_chars is_digit s = true.

(** The well-formed URL [https://github.com/O/R/pull/N]. *)
Definition pr_url (O R N : string) : string :=
  "https://github.com/" ++ O ++ "/" ++ R ++ "/pull/" ++ N.

(** A base-10 integer: digits, after an optional sign, and nothing
    else. *)
Definition base10_integer (s : string) : bool :=
  match s with
  | String c r =>
      if Ascii.eqb c "-" || Ascii.eqb c "+"
      then truthy r && all_chars is_digit r
      else all_chars is_digit s
  | EmptyString => false
  end.

(** A string that holds a pull-request URL, with its three parts. *)
Definition url_shaped (s o r n : string) : Prop :=
  exists pre post,
    s = pre ++ "github.com/" ++ o ++ "/" ++ r ++ "/pull/" ++ n ++ post /\
    segment o /\ segment r /\ digits n.

(** The repository a tool works against in a given world: the one the
    reference names or, without one, the trimmed answer of
    [gh repo view]; [None] when that call fails. *)
Definition resolved_context (parsed : PrReference) (w : World) : option string :=
  if truthy (owner parsed) && truthy (repo parsed)
  then Some (owner parsed ++ "/" ++ repo parsed)
  else match repo_view w with
       | Ok out => Some (trim out)
       | Throw _ => None
       end.

(** The invocations made to find it. *)
Definition context_calls (parsed : PrReference) : list call :=
  if truthy (owner parsed) && truthy (repo parsed) then [] else [RepoView].

(** The example of the specification: A (id 1), B and C replying to A,
    D replying to a comment 99 that is not there. *)
Definition raw_comment (i : Z) (reply : option Z) : RawReviewComment :=
  mkRawReviewComment i "src/a.ts" (Some 10) (Some 10) "RIGHT" "text" "octocat"
    "2024-01-01T00:00:00Z" "2024-01-01T00:00:00Z" reply "@@ -1 +1 @@"
    "https://github.com/o/r/pull/1#discussion".

Definition rawA := raw_comment 1 None.
Definition rawB := raw_comment 2 (Some 1).
Definition rawC := raw_comment 3 (Some 1).
Definition rawD := raw_comment 4 (Some 99).

Definition example_comments : list ReviewComment :=
  map toReviewComment [rawA; rawB; rawC; rawD].

(** A world in which every invocation succeeds. *)
Definition example_reviews : list RawReview :=
  [mkRawReview 11 "APPROVED" "ok" "alice" "2024-01-02T00:00:00Z" "u1";
   mkRawReview 12 "PENDING" "draft" "bob" "" "u2";
   mkRawReview 13 "COMMENTED" "" "carol" "2024-01-03T00:00:00Z" "u3"].

Definition example_metadata : Metadata :=
  mkMetadata 7 "Title" "" "alice" "main" "topic" "OPEN" false 60 41 2
    [mkCommit "first" ""] "2024-01-01T00:00:00Z" "2024-01-02T00:00:00Z"
    "https://github.com/octo/cat/pull/7".

Definition example_response : ReviewResponse :=
  mkResponse 99 "https://github.com/octo/cat/pull/7#pullrequestreview-99"
    "COMMENTED" "2024-01-04T00:00:00Z".

Definition example_world : World :=
  mkWorld
    (fun _ _ => Ok example_metadata)
    (fun _ _ => Ok "diff --git a/x b/x")
    (fun _ _ => Ok [mkFile "x" 60 41])
    (fun _ _ => Ok [mkCommit "first" ""])
    (Ok "octo/cat")
    (fun _ _ => Ok "abc123")
    (fun _ _ => Ok [rawA; rawB; rawC; rawD])
    (fun _ _ => Ok [])
    (fun _ _ => Ok example_reviews)
    (fun _ _ _ => JsError "Redirection with no file")
    (fun _ => None).

(** Two inputs of the review tool have the same field set when every
    property name is in both or in neither. *)
Definition same_field_set (j1 j2 : json) : Prop :=
  forall k : string, has_field k j1 = has_field k j2.

(** The arguments of the review tool with the dry-run flag set. *)
Definition with_dryRun (flag : bool) (args : ReviewTool.Args) : ReviewTool.Args :=
  ReviewTool.mkArgs (ReviewTool.a_pr args) (ReviewTool.a_repo args)
    (ReviewTool.a_body args) (ReviewTool.a_event args)
    (ReviewTool.a_comments args) (Some flag).

Definition example_inline : ReviewTool.InlineComment :=
  ReviewTool.mkInline "src/a.ts" 12 (Some ReviewTool.LEFT) (Some 10)
    (Some ReviewTool.LEFT) "rename this".

Definition example_args (comments : list ReviewTool.InlineComment) (dry : bool)
  : ReviewTool.Args :=
  ReviewTool.mkArgs "https://github.com/octo/cat/pull/7" None "Looks good"
    None (Some comments) (Some dry).

(** Comments on three files, two of which have a name that reads as an
    array index. *)
Definition comment_on (i : Z) (p : string) : CommentsTool.ReviewComment :=
  CommentsTool.toReviewComment
    (mkRawReviewComment i p (Some 10) (Some 10) "RIGHT" "text" "octocat"
       "2024-01-01T00:00:00Z" "2024-01-01T00:00:00Z" None "@@ -1 +1 @@"
       "https://github.com/o/r/pull/1#discussion").

Definition mixed_paths : list CommentsTool.ReviewComment :=
  [comment_on 1 "src/b.ts"; comment_on 2 "10"; comment_on 3 "2";
   comment_on 4 "src/b.ts"].

(** What the dry run shows of one inline comment, next to what the payload
    sends of it. *)
Definition shown_as_sent (c : ReviewTool.InlineComment) (shown sent : json) : Prop :=
  field "file" shown = Some (JStr (ReviewTool.path c)) /\
  field "path" sent = Some (JStr (ReviewTool.path c)) /\
  field "line" shown = Some (JNum (ReviewTool.line c)) /\
  field "line" sent = Some (JNum (ReviewTool.line c)) /\
  field "body" shown = Some (JStr (ReviewTool.body c)) /\
  field "body" sent = Some (JStr (ReviewTool.body c)) /\
  field "startLine" shown = option_map JNum (ReviewTool.startLine c) /\
  field "start_line" sent
  = match ReviewTool.startLine c with
    | Some z => if z =? 0 then None else Some (JNum z)
    | None => None
    end /\
  field "side" sent = option_map (fun v => JStr (ReviewTool.side_string v)) (ReviewTool.side c) /\
  field "start_side" sent = option_map (fun v => JStr (ReviewTool.side_string v)) (ReviewTool.startSide c) /\
  keys shown
  = (["file"; "line"]
     ++ match ReviewTool.startLine c with Some _ => ["startLine"] | None => [] end
     ++ ["body"])%list.

End Spec.

(* ================================================================== *)
(** * Further notions used to state what the tools do *)

Module Props.
Import Spec.

(** A string without the character [x]. *)
Definition lacks (x : ascii) (s : string) : bool :=
  all_chars (fun c => negb (Ascii.eqb c x)) s.

(** A string without any decimal digit. *)
Definition no_digit (s : string) : bool :=
  all_chars (fun c => negb (is_digit c)) s.

(** A string after its sign, if it starts with one. *)
Definition unsigned (s : string) : string :=
  match s with
  | String c r => if Ascii.eqb c "-" || Ascii.eqb c "+" then r else s
  | EmptyString => s
  end.

(** A reference either names no repository or names both halves. *)
Definition repository_known (r : PrReference) : Prop :=
  segment (owner r) /\ segment (repo r).

Definition repository_left_open (r : PrReference) : Prop :=
  owner r = "" /\ repo r = "".

(** The automation accounts [isLikelyBot] knows by name whose name does not
    end in [bot]. *)
Definition named_bots : list string :=
  ["github-actions"; "renovate"; "codecov"; "sonarcloud"; "netlify"; "vercel"].

(** The comments on the file [k]. *)
Definition at_path (k : string) (c : CommentsTool.ReviewComment) : bool :=
  String.eqb (CommentsTool.path c) k.

(** A name every object inherits from [Object.prototype]. *)
Definition inherited (k : string) : bool :=
  existsb (String.eqb k) CommentsTool.object_prototype_keys.

(** The distinct strings of a list that are not in [seen], in the order of
    their first occurrence. *)
Fixpoint first_seen (seen : list string) (ps : list string) : list string :=
  match ps with
  | [] => []
  | p :: t =>
      if existsb (String.eqb p) seen then first_seen seen t
      else p :: first_seen (seen ++ [p]) t
  end.

Definition distinct_paths (cs : list CommentsTool.ReviewComment) : list string :=
  first_seen [] (map CommentsTool.path cs).

(** All the comments held by the buckets of a grouping. *)
Definition grouped (o : CommentsTool.ByFile) : list CommentsTool.ReviewComment :=
  List.concat (map snd o).

(** A root, a reply to it, and a reply to that reply. *)
Definition nested_comments : list CommentsTool.ReviewComment :=
  map CommentsTool.toReviewComment
    [raw_comment 1 None; raw_comment 2 (Some 1); raw_comment 3 (Some 2)].

(** A tree without [null] and without [undefined], at any depth. *)
Fixpoint no_null (j : json) : bool :=
  match j with
  | JUndef | JNull => false
  | JBool _ | JNum _ | JStr _ => true
  | JArr l =>
      (fix all (l : list json) : bool :=
         match l with
         | [] => true
         | x :: t => no_null x && all t
         end) l
  | JObj l =>
      (fix all (l : list (string * json)) : bool :=
         match l with
         | [] => true
         | (_, v) :: t => no_null v && all t
         end) l
  end.

(** The number of items of an array, of properties of an object. *)
Definition size (j : json) : Z :=
  match j with
  | JArr l => Z.of_nat (List.length l)
  | JObj l => Z.of_nat (List.length l)
  | _ => 0
  end.

(** What precedes the last closing brace of a string, when it has one. *)
Fixpoint before_last_brace (s : string) : option string :=
  match s with
  | EmptyString => None
  | String c r =>
      match before_last_brace r with
      | Some inner => Some (String c inner)
      | None => if Ascii.eqb c "}" then Some EmptyString else None
      end
  end.

(** A world in which [gh repo view] answers [ambient] and every other
    invocation throws [e]. *)
Definition broken_world (ambient : res string) (e : exn) : World :=
  mkWorld (fun _ _ => Throw e) (fun _ _ => Throw e) (fun _ _ => Throw e)
    (fun _ _ => Throw e) ambient (fun _ _ => Throw e) (fun _ _ => Throw e)
    (fun _ _ => Throw e) (fun _ _ => Throw e)
    (fun _ _ _ => JsError "Redirection with no file")
    (fun _ => None).

Definition starts_with_space (s : string) : bool :=
  match s with String c _ => is_space c | EmptyString => false end.

Fixpoint ends_with_space (s : string) : bool :=
  match s with
  | EmptyString => false
  | String c EmptyString => is_space c
  | String _ r => ends_with_space r
  end.

(** A text without white space at either end. *)
Definition trimmed (s : string) : Prop :=
  starts_with_space s = false /\ ends_with_space s = false.

(** The line feed [gh] ends its output with. *)
Definition newline : string := String (ascii_of_nat 10) EmptyString.

(** Signs of a number; [NaN] has none. *)
Definition negative (n : jsnum) : Prop :=
  match n with Int z => z < 0 | NegInf => True | _ => False end.

Definition not_negative (n : jsnum) : Prop :=
  match n with Int z => 0 <= z | PosInf => True | _ => False end.

(** A number that is finite is below 2^1024 in magnitude. *)
Definition in_double_range (n : jsnum) : Prop :=
  match n with Int z => Z.abs z < 2 ^ 1024 | _ => True end.

End Props.

(* ================================================================== *)
(** * Size classification *)

Section SizeCategory.
Import SnapshotTool.

Lemma sizeCategory_cases (total : Z) :
  (total <= 100 /\ sizeCategory total = "small") \/
  (101 <= total <= 500 /\ sizeCategory total = "medium") \/
  (501 <= total <= 1000 /\ sizeCategory total = "large") \/
  (1001 <= total /\ sizeCategory total = "very large").
Proof.
  unfold sizeCategory.
  destruct (Z.leb_spec total 100); [left; split; [lia | reflexivity] |].
  destruct (Z.leb_spec total 500); [right; left; split; [lia | reflexivity] |].
  destruct (Z.leb_spec total 1000); [right; right; left; split; [lia | reflexivity] |].
  right; right; right; split; [lia | reflexivity].
Qed.

(** C7. The size category of a total of changed lines is "small" exactly
    up to 100, "medium" exactly from 101 to 500, "large" exactly from 501
    to 1000 and "very large" exactly above 1000; the six boundary values
    fall as the specification lists them, and the category the tool
    reports is the one of [additions + deletions]. *)
Theorem sizeCategory_thresholds :
  (forall total : Z,
      (sizeCategory total = "small" <-> total <= 100) /\
      (sizeCategory total = "medium" <-> 101 <= total <= 500) /\
      (sizeCategory total = "large" <-> 501 <= total <= 1000) /\
      (sizeCategory total = "very large" <-> 1000 < total)) /\
  (sizeCategory 100 = "small" /\ sizeCategory 101 = "medium" /\
   sizeCategory 500 = "medium" /\ sizeCategory 501 = "large" /\
   sizeCategory 1000 = "large" /\ sizeCategory 1001 = "very large") /\
  (forall metadata diff files commits,
      exists stats,
        field "stats" (output metadata diff files commits) = Some stats /\
        field "sizeCategory" stats
        = Some (JStr (sizeCategory (m_additions metadata + m_deletions metadata)))).
Proof.
  split; [| split; [repeat split |]].
  - intro total.
    destruct (sizeCategory_cases total) as [[H E] | [[H E] | [[H E] | [H E]]]];
      rewrite E; repeat split; intros; try lia; try discriminate; reflexivity.
  - intros. eexists. split; reflexivity.
Qed.

End SizeCategory.

(* ================================================================== *)
(** * Reviews and threads of the comment tool *)

Section Reviews.
Import CommentsTool Spec.

Lemma not_pending_true (r : RawReview) :
  not_pending r = true <-> rv_state r <> "PENDING".
Proof.
  unfold not_pending. rewrite negb_true_iff.
  destruct (String.eqb_spec (rv_state r) "PENDING"); split; congruence.
Qed.

Lemma reviewsOf_submitted (raw : list RawReview) :
  Submitted raw (reviewsOf raw).
Proof.
  unfold reviewsOf.
  induction raw as [| r raw IH]; simpl.
  - constructor.
  - destruct (not_pending r) eqn:E.
    + simpl. apply submitted_keep; [now apply not_pending_true | exact IH].
    + apply submitted_skip; [| exact IH].
      destruct (String.eqb_spec (rv_state r) "PENDING") as [e | ne]; [exact e |].
      apply not_pending_true in ne. congruence.
Qed.

Lemma submitted_unique (raw : list RawReview) (out1 out2 : list Review) :
  Submitted raw out1 -> Submitted raw out2 -> out1 = out2.
Proof.
  intro H1. revert out2.
  induction H1 as [| r raw out Hp _ IH | r raw out Hp _ IH];
    intros out2 H2; inversion H2; subst; try contradiction.
  - reflexivity.
  - now apply IH.
  - f_equal. now apply IH.
Qed.

Lemma toReview_state (r : RawReview) : r_state (toReview r) = rv_state r.
Proof. reflexivity. Qed.

Lemma reviewsOf_no_pending (raw : list RawReview) :
  Forall (fun r => r_state r <> "PENDING") (reviewsOf raw).
Proof.
  unfold reviewsOf. apply Forall_forall. intros r Hin.
  apply in_map_iff in Hin. destruct Hin as [r0 [<- Hin]].
  apply filter_In in Hin. destruct Hin as [_ Hnp].
  rewrite toReview_state. now apply not_pending_true.
Qed.

End Reviews.

Section Threads.
Import CommentsTool Spec.

(** The mapping of the raw comments never leaves a reply id of 0: the
    falsy test of the source and the null test of the specification
    agree on what the tool works on. *)
Lemma or_null_nonzero (x : option Z) (z : Z) : or_null x = Some z -> z <> 0.
Proof.
  destruct x as [y |]; simpl; [| discriminate].
  unfold truthy_num. destruct (Z.eqb_spec y 0); simpl; congruence.
Qed.

Lemma delivered_top_level (cs : list ReviewComment) (c : ReviewComment) :
  delivered cs -> In c cs -> is_top_level c = is_root c.
Proof.
  intros [raw ->] Hin. apply in_map_iff in Hin. destruct Hin as [r [<- _]].
  unfold is_top_level, is_root. simpl.
  destruct (or_null (rc_in_reply_to_id r)) as [z |] eqn:E; [| reflexivity].
  apply or_null_nonzero in E. unfold truthy_num.
  destruct (Z.eqb_spec z 0); [contradiction | reflexivity].
Qed.

Lemma filter_ext_in' {A} (f g : A -> bool) (l : list A) :
  (forall a, In a l -> f a = g a) -> filter f l = filter g l.
Proof.
  induction l as [| a l IH]; intro H; simpl; [reflexivity |].
  rewrite (H a (or_introl eq_refl)), IH; [reflexivity |].
  intros b Hb. apply H. now right.
Qed.

Lemma threads_parents (cs : list ReviewComment) :
  delivered cs -> map parent (threadsOf cs) = filter is_root cs.
Proof.
  intro D. unfold threadsOf. rewrite map_map. simpl. rewrite map_id.
  apply filter_ext_in'. intros c Hin. now apply delivered_top_level with cs.
Qed.

Lemma threads_replies (cs : list ReviewComment) (t : Thread) :
  In t (threadsOf cs) -> replies t = filter (is_reply_to (parent t)) cs.
Proof.
  unfold threadsOf. intro Hin. apply in_map_iff in Hin.
  destruct Hin as [p [<- _]]. reflexivity.
Qed.

Lemma threads_parent_in (cs : list ReviewComment) (t : Thread) :
  In t (threadsOf cs) -> In (parent t) cs /\ is_top_level (parent t) = true.
Proof.
  unfold threadsOf. intro Hin. apply in_map_iff in Hin.
  destruct Hin as [p [<- Hp]]. simpl. now apply filter_In in Hp.
Qed.

End Threads.

Section ThreadAssembler.
Import CommentsTool Spec.

(** C6. On the comments the tool works on, the thread assembler makes one
    thread per comment without [inReplyToId], in input order; the replies
    of a thread are exactly the input comments whose [inReplyToId] is the
    id of its parent, in input order; a comment that replies to an id no
    input comment has is in no reply list and is no parent.  For the
    input A(1), B(2 -> 1), C(3 -> 1), D(4 -> 99) the result is the single
    thread of A with the replies B, C. *)
Theorem threads_assembled :
  (forall cs : list ReviewComment,
      delivered cs ->
      map parent (threadsOf cs) = filter is_root cs /\
      (forall t, In t (threadsOf cs) ->
                 replies t = filter (is_reply_to (parent t)) cs) /\
      (forall c k,
          In c cs -> inReplyToId c = Some k ->
          (forall p, In p cs -> id p <> k) ->
          forall t, In t (threadsOf cs) -> ~ In c (replies t) /\ parent t <> c)) /\
  threadsOf example_comments
  = [mkThread (toReviewComment rawA) [toReviewComment rawB; toReviewComment rawC]].
Proof.
  split; [| reflexivity].
  intros cs D. split; [now apply threads_parents |].
  split; [intros t Ht; now apply threads_replies |].
  intros c k Hc Hk Hnone t Ht.
  destruct (threads_parent_in cs t Ht) as [Hp Htop].
  split.
  - rewrite (threads_replies cs t Ht). intro Hin.
    apply filter_In in Hin. destruct Hin as [_ Hr].
    unfold is_reply_to in Hr. rewrite Hk in Hr.
    apply Z.eqb_eq in Hr. exact (Hnone _ Hp (eq_sym Hr)).
  - intro E. subst c.
    rewrite (delivered_top_level cs _ D Hp) in Htop.
    unfold is_root in Htop. rewrite Hk in Htop. discriminate.
Qed.

(** The general part of [threads_assembled] at the example input: D is in
    no thread. *)
Lemma threads_assembled_witness :
  delivered example_comments /\
  map parent (threadsOf example_comments) = filter is_root example_comments /\
  (forall t, In t (threadsOf example_comments) ->
             ~ In (toReviewComment rawD) (replies t)
             /\ parent t <> toReviewComment rawD).
Proof.
  assert (D : delivered example_comments)
    by (exists [rawA; rawB; rawC; rawD]; reflexivity).
  split; [exact D |].
  destruct (proj1 threads_assembled example_comments D) as [Hroots [_ Horphan]].
  split; [exact Hroots |].
  apply (Horphan (toReviewComment rawD) 99).
  - simpl. tauto.
  - reflexivity.
  - intros p Hp. simpl in Hp.
    destruct Hp as [<- | [<- | [<- | [<- | []]]]]; simpl; lia.
Defined.

End ThreadAssembler.

(* ================================================================== *)
(** * Runs of the comment tool *)

Section CommentsRuns.
Import CommentsTool Spec.

Lemma comments_context_run (parsed : PrReference) (w : World) (t : list call) :
  repoContextOf parsed w t
  = (Ok (match resolved_context parsed w with
         | Some ctx => inr ctx
         | None => inl (stringify no_repository)
         end),
     (t ++ context_calls parsed)%list).
Proof.
  unfold repoContextOf, resolved_context, context_calls.
  destruct (truthy (owner parsed) && truthy (repo parsed)).
  - unfold ret. now rewrite app_nil_r.
  - unfold try_catch, Gh.bind, invoke, ret.
    destruct (repo_view w); reflexivity.
Qed.

Lemma comments_execute_success (w : World) (pr : string) (repoArg : option string)
    (parsed : PrReference) (ctx : string) (rc : list RawReviewComment)
    (ic : list RawIssueComment) (rv : list RawReview) (byFile : ByFile) :
  parsePrReference pr repoArg = Ok parsed ->
  resolved_context parsed w = Some ctx ->
  api_review_comments w ctx (number parsed) = Ok rc ->
  api_issue_comments w ctx (number parsed) = Ok ic ->
  api_reviews w ctx (number parsed) = Ok rv ->
  commentsByFileOf (map toReviewComment rc) = Ok byFile ->
  run (execute pr repoArg) w
  = (Ok (stringify (output (map toReviewComment rc) (map toIssueComment ic)
                      (reviewsOf rv) byFile
                      (threadsOf (map toReviewComment rc)))),
     (context_calls parsed
      ++ [ApiReviewComments ctx (number parsed);
          ApiIssueComments ctx (number parsed);
          ApiReviews ctx (number parsed)])%list).
Proof.
  intros Hp Hc Hrc Hic Hrv Hbf.
  unfold run, execute, Gh.bind at 1, lift. rewrite Hp.
  unfold Gh.bind at 1. rewrite comments_context_run, Hc. simpl app.
  unfold try_catch, Gh.bind, invoke, lift, ret.
  rewrite Hrc, Hic, Hrv, Hbf.
  now rewrite <- !app_assoc.
Qed.

Lemma stringify_review_json (r : Review) :
  stringify (review_json r) = review_json r.
Proof. reflexivity. Qed.

Lemma stringify_items {A} (f : A -> json) (l : list A) :
  (forall a, stringify (f a) = f a /\ f a <> JUndef) ->
  stringify (JArr (map f l)) = JArr (map f l).
Proof.
  intro H. simpl. f_equal. rewrite map_map. apply map_ext.
  intro a. destruct (H a) as [-> Hn]. destruct (f a); congruence.
Qed.

Lemma output_reviews rcs ics rvs byFile ths :
  field "reviews" (stringify (output rcs ics rvs byFile ths))
  = Some (JArr (map review_json rvs)).
Proof.
  change (field "reviews" (stringify (output rcs ics rvs byFile ths)))
    with (Some (stringify (JArr (map review_json rvs)))).
  f_equal. apply stringify_items. intro r. split; [reflexivity | discriminate].
Qed.

Lemma output_totalReviews rcs ics rvs byFile ths :
  exists stats,
    field "stats" (stringify (output rcs ics rvs byFile ths)) = Some stats /\
    field "totalReviews" stats = Some (JNum (count rvs)).
Proof. eexists. split; reflexivity. Qed.

End CommentsRuns.

Section PendingReviews.
Import CommentsTool Spec.

(** C10. The reviews the comment tool reports are exactly the raw reviews
    whose state is not PENDING, converted, in input order: the list is the
    one selection the specification describes and holds no pending
    review.  When the tool succeeds, the [reviews] of its output is that
    list and [stats.totalReviews] is its length, the number of raw reviews
    that are not pending. *)
Theorem pending_reviews_excluded :
  (forall raw : list RawReview,
      Submitted raw (reviewsOf raw) /\
      (forall out, Submitted raw out -> out = reviewsOf raw) /\
      Forall (fun r => r_state r <> "PENDING") (reviewsOf raw) /\
      List.length (reviewsOf raw)
      = List.length (filter (fun r => negb (String.eqb (rv_state r) "PENDING")) raw)) /\
  (forall w pr repoArg parsed ctx rc ic rv byFile,
      parsePrReference pr repoArg = Ok parsed ->
      resolved_context parsed w = Some ctx ->
      api_review_comments w ctx (number parsed) = Ok rc ->
      api_issue_comments w ctx (number parsed) = Ok ic ->
      api_reviews w ctx (number parsed) = Ok rv ->
      commentsByFileOf (map toReviewComment rc) = Ok byFile ->
      exists out stats,
        fst (run (execute pr repoArg) w) = Ok out /\
        field "reviews" out = Some (JArr (map review_json (reviewsOf rv))) /\
        field "stats" out = Some stats /\
        field "totalReviews" stats = Some (JNum (count (reviewsOf rv)))).
Proof.
  split.
  - intro raw. split; [apply reviewsOf_submitted |].
    split; [intros out H; exact (submitted_unique raw _ _ H (reviewsOf_submitted raw)) |].
    split; [apply reviewsOf_no_pending |].
    unfold reviewsOf. now rewrite length_map.
  - intros w pr repoArg parsed ctx rc ic rv byFile Hp Hc Hrc Hic Hrv Hbf.
    destruct (output_totalReviews (map toReviewComment rc) (map toIssueComment ic)
                (reviewsOf rv) byFile (threadsOf (map toReviewComment rc)))
      as [stats [Hs Ht]].
    eexists. exists stats.
    rewrite (comments_execute_success w pr repoArg parsed ctx rc ic rv byFile
               Hp Hc Hrc Hic Hrv Hbf).
    split; [reflexivity |]. split; [apply output_reviews | split; assumption].
Qed.

End PendingReviews.

(* ================================================================== *)
(** * Runs of the review tool *)

Section ReviewRuns.
Import ReviewTool Spec.

Lemma review_context_run (parsed : PrReference) (w : World) (t : list call) :
  repoContextOf parsed w t
  = (Ok (match resolved_context parsed w with
         | Some ctx => inr ctx
         | None => inl (stringify no_repository)
         end),
     (t ++ context_calls parsed)%list).
Proof.
  unfold repoContextOf, resolved_context, context_calls.
  destruct (truthy (owner parsed) && truthy (repo parsed)).
  - unfold ret. now rewrite app_nil_r.
  - unfold try_catch, Gh.bind, invoke, ret.
    destruct (repo_view w); reflexivity.
Qed.

Lemma review_commit_run (ctx : string) (n : jsnum) (w : World) (t : list call) :
  commitIdOf ctx n w t
  = (Ok (match api_head_sha w ctx n with
         | Ok out => inr (trim out)
         | Throw e => inl (stringify (no_pr_details e))
         end),
     (t ++ [ApiHeadSha ctx n])%list).
Proof.
  unfold commitIdOf, try_catch, Gh.bind, invoke, ret.
  destruct (api_head_sha w ctx n); reflexivity.
Qed.

(** The whole run of the tool on a reference that parses. *)
Lemma review_execute_run (w : World) (args : Args) (parsed : PrReference) :
  parsePrReference (a_pr args) (a_repo args) = Ok parsed ->
  run (execute args) w
  = match resolved_context parsed w with
    | None => (Ok (stringify no_repository), context_calls parsed)
    | Some ctx =>
        let n := number parsed in
        let t := (context_calls parsed ++ [ApiHeadSha ctx n])%list in
        match api_head_sha w ctx n with
        | Throw e => (Ok (stringify (no_pr_details e)), t)
        | Ok out =>
            let event := default COMMENT (a_event args) in
            let comments := default [] (a_comments args) in
            if default false (a_dryRun args)
            then (Ok (stringify (dry_run_result ctx n event (a_body args) comments)), t)
            else
              let payloadJson :=
                stringify (reviewPayload (trim out) (a_body args) event comments) in
              (Ok (stringify (on_error w (post_command w ctx n payloadJson))), t)
        end
    end.
Proof.
  intro Hp.
  unfold run, execute, Gh.bind at 1, lift. rewrite Hp.
  unfold Gh.bind at 1. rewrite review_context_run. simpl app.
  destruct (resolved_context parsed w) as [ctx |]; [| reflexivity].
  unfold Gh.bind at 1. rewrite review_commit_run.
  destruct (api_head_sha w ctx (number parsed)) as [out | e]; [| reflexivity].
  cbv zeta.
  destruct (default false (a_dryRun args)); reflexivity.
Qed.

Lemma review_execute_throw (w : World) (args : Args) (e : exn) :
  parsePrReference (a_pr args) (a_repo args) = Throw e ->
  run (execute args) w = (Throw e, []).
Proof.
  intro Hp. unfold run, execute, Gh.bind at 1, lift. now rewrite Hp.
Qed.

End ReviewRuns.

Section PendingReviewsExample.
Import CommentsTool Spec.

(** [pending_reviews_excluded] in the example world: of the three raw
    reviews the pending one is left out and two are counted. *)
Lemma pending_reviews_excluded_witness :
  exists out stats,
    fst (run (execute "7" (Some "octo/cat")) example_world) = Ok out /\
    field "reviews" out
    = Some (JArr (map review_json
                    [mkReview 11 "APPROVED" "ok" "alice" false "2024-01-02T00:00:00Z" "u1";
                     mkReview 13 "COMMENTED" "" "carol" false "2024-01-03T00:00:00Z" "u3"])) /\
    field "stats" out = Some stats /\
    field "totalReviews" stats = Some (JNum 2).
Proof.
  apply (proj2 pending_reviews_excluded example_world "7" (Some "octo/cat")
           (mkRef "octo" "cat" (Int 7)) "octo/cat"
           [rawA; rawB; rawC; rawD] [] example_reviews
           [("src/a.ts", example_comments)]); reflexivity.
Defined.

End PendingReviewsExample.


Section DryRun.
Import ReviewTool Spec.






End DryRun.

Section PreviewShape.
Import ReviewTool Spec.

(** The preview and the payload do not list the same fields for an inline
    comment: the payload of a comment on the LEFT side has [side], its
    preview has not (and the preview names the path [file]). *)
Lemma preview_not_isomorphic :
  ~ (forall c : InlineComment,
        same_field_set (stringify (preview_comment c))
                       (stringify (payload_comment c))).
Proof.
  intro H. specialize (H example_inline "side"). vm_compute in H. discriminate H.
Qed.

Ltac by_fields c :=
  destruct c as [p l [sd |] [sl |] [ss |] b]; cbn;
  try match goal with |- context [truthy_num ?z] =>
        unfold truthy_num; destruct (z =? 0) end;
  cbn; repeat split; reflexivity.

Lemma shown_as_sent_entry (c : InlineComment) :
  shown_as_sent c (stringify (preview_comment c)) (stringify (payload_comment c)).
Proof. unfold shown_as_sent. by_fields c. Qed.

Lemma stringify_entries {A} (f : A -> list (string * json)) (l : list A) :
  map (fun x => match stringify x with JUndef => JNull | y => y end)
      (map (fun a => JObj (f a)) l)
  = map (fun a => stringify (JObj (f a))) l.
Proof. rewrite map_map. apply map_ext. intro a. reflexivity. Qed.

(** C5. For the same input the dry run shows one entry per inline comment,
    in the order of the [comments] of the payload that a submission hands
    to its POST command, with the path (under the name [file]), the line,
    the body and the start line of the comment.  The [side] and the
    [start_side] that the payload carries when they are set are in no
    entry of the dry run: its entries have the names [file], [line],
    [startLine] and [body] only, so the dry run does not return what would
    be submitted. *)
Theorem preview_drops_sides (w : World) (args : Args) (parsed : PrReference)
    (ctx out : string) :
  parsePrReference (a_pr args) (a_repo args) = Ok parsed ->
  resolved_context parsed w = Some ctx ->
  api_head_sha w ctx (number parsed) = Ok out ->
  let comments := default [] (a_comments args) in
  let payload := stringify (reviewPayload (trim out) (a_body args)
                              (default COMMENT (a_event args)) comments) in
  exists echo shown sent,
    fst (run (execute (with_dryRun true args)) w)
    = Ok (JObj [("dryRun", JBool true); ("wouldSubmit", echo);
                ("message", JStr "Dry run complete. No review was submitted. Remove --dry-run to submit the review.")]) /\
    fst (run (execute (with_dryRun false args)) w)
    = Ok (stringify (on_error w (post_command w ctx (number parsed) payload))) /\
    field "inlineComments" echo = Some (JArr shown) /\
    field "comments" payload
    = match comments with [] => None | _ :: _ => Some (JArr sent) end /\
    List.length shown = List.length comments /\
    List.length sent = List.length comments /\
    forall i c,
      nth_error comments i = Some c ->
      exists p s,
        nth_error shown i = Some p /\ nth_error sent i = Some s /\
        shown_as_sent c p s.
Proof.
  intros Hp Hctx Hsha comments payload.
  assert (Hp1 : parsePrReference (a_pr (with_dryRun true args))
                  (a_repo (with_dryRun true args)) = Ok parsed) by exact Hp.
  assert (Hp2 : parsePrReference (a_pr (with_dryRun false args))
                  (a_repo (with_dryRun false args)) = Ok parsed) by exact Hp.
  rewrite (review_execute_run w _ parsed Hp1), (review_execute_run w _ parsed Hp2).
  rewrite Hctx. cbv zeta. rewrite Hsha.
  cbn [with_dryRun a_dryRun a_body a_event a_comments default fst].
  fold comments. fold payload.
  eexists.
  exists (map (fun c => stringify (preview_comment c)) comments),
         (map (fun c => stringify (payload_comment c)) comments).
  split.
  { unfold dry_run_result. cbn [stringify]. reflexivity. }
  split; [reflexivity |].
  split.
  { destruct (number parsed); cbn [json_of_jsnum field lookup String.eqb Ascii.eqb Bool.eqb];
      unfold preview_comment; rewrite stringify_entries; reflexivity. }
  split.
  { unfold payload, reviewPayload.
    destruct comments as [| c0 cs]; [reflexivity |].
    cbn [List.length Nat.ltb Nat.leb app stringify field lookup String.eqb Ascii.eqb Bool.eqb].
    unfold payload_comment. rewrite stringify_entries. reflexivity. }
  split; [apply length_map |]. split; [apply length_map |].
  intros i c Hc.
  exists (stringify (preview_comment c)), (stringify (payload_comment c)).
  split; [now rewrite nth_error_map, Hc |].
  split; [now rewrite nth_error_map, Hc |].
  apply shown_as_sent_entry.
Qed.

(** [preview_drops_sides] in the example world, on a comment on the LEFT
    side. *)
Lemma preview_drops_sides_witness :
  exists echo shown sent p s,
    fst (run (execute (example_args [example_inline] true)) example_world)
    = Ok (JObj [("dryRun", JBool true); ("wouldSubmit", echo);
                ("message", JStr "Dry run complete. No review was submitted. Remove --dry-run to submit the review.")]) /\
    field "inlineComments" echo = Some (JArr shown) /\
    field "comments" (stringify (reviewPayload "abc123" "Looks good" COMMENT [example_inline]))
    = Some (JArr sent) /\
    nth_error shown 0 = Some p /\ nth_error sent 0 = Some s /\
    keys p = ["file"; "line"; "startLine"; "body"] /\
    field "side" s = Some (JStr "LEFT") /\
    field "start_side" s = Some (JStr "LEFT").
Proof.
  destruct (preview_drops_sides example_world (example_args [example_inline] false)
              (mkRef "octo" "cat" (Int 7)) "octo/cat" "abc123"
              eq_refl eq_refl eq_refl)
    as [echo [shown [sent [H1 [_ [H3 [H4 [_ [_ H7]]]]]]]]].
  destruct (H7 0%nat example_inline eq_refl)
    as [p [s [Hp [Hs [_ [_ [_ [_ [_ [_ [_ [_ [Hside [Hstart Hkeys]]]]]]]]]]]]]].
  exists echo, shown, sent, p, s.
  repeat split; assumption.
Defined.

End PreviewShape.

(* ================================================================== *)
(** * The regular expression and [parseInt] *)

Section Matching.
Import Spec.

Lemma append_nil_r (s : string) : s ++ "" = s.
Proof. induction s as [| c s IH]; simpl; [reflexivity | now rewrite IH]. Qed.

Lemma lit_sound (p s r : string) : In r (lit p s) -> s = p ++ r.
Proof.
  revert s. induction p as [| a p IH]; intros s H; simpl in *.
  - destruct H as [-> | []]. reflexivity.
  - destruct s as [| b s]; [contradiction |].
    destruct (Ascii.eqb_spec a b) as [-> | _]; [| contradiction].
    f_equal. now apply IH.
Qed.

Lemma lit_here (p s : string) : lit p (p ++ s) = [s].
Proof.
  induction p as [| a p IH]; simpl; [reflexivity |].
  now rewrite Ascii.eqb_refl.
Qed.

Lemma star_sound (cls : ascii -> bool) (s m r : string) :
  In (m, r) (star cls s) -> s = m ++ r /\ all_chars cls m = true.
Proof.
  revert m. induction s as [| c s IH]; intros m H; simpl in H.
  - destruct H as [E | []]. injection E as <- <-. split; reflexivity.
  - destruct (cls c) eqn:Hc.
    + apply in_app_or in H. destruct H as [H | [E | []]].
      * apply in_map_iff in H. destruct H as [[m' r'] [E H]].
        unfold extend in E. simpl in E. injection E as <- <-.
        destruct (IH _ H) as [-> Hm].
        split; [reflexivity |]. cbn [all_chars]. now rewrite Hc, Hm.
      * injection E as <- <-. split; reflexivity.
    + destruct H as [E | []]. injection E as <- <-. split; reflexivity.
Qed.

Lemma plus_sound (cls : ascii -> bool) (s m r : string) :
  In (m, r) (plus cls s) ->
  s = m ++ r /\ all_chars cls m = true /\ m <> "".
Proof.
  destruct s as [| c s]; simpl; [contradiction |].
  destruct (cls c) eqn:Hc; [| contradiction].
  intro H. apply in_map_iff in H. destruct H as [[m' r'] [E H]].
  unfold extend in E. simpl in E. injection E as <- <-.
  destruct (star_sound _ _ _ _ H) as [-> Hm].
  cbn [all_chars]. rewrite Hc, Hm. repeat split. discriminate.
Qed.

(** A run of the class that cannot be extended is the first alternative
    of the greedy repetition. *)
Lemma star_run (cls : ascii -> bool) (m rest : string) :
  all_chars cls m = true -> stops cls rest ->
  exists tl, star cls (m ++ rest) = (m, rest) :: tl.
Proof.
  intros Hm Hr. induction m as [| c m IH]; simpl.
  - destruct rest as [| c r]; [now exists [] |].
    simpl in Hr. simpl. rewrite Hr. now exists [].
  - simpl in Hm. apply andb_true_iff in Hm. destruct Hm as [Hc Hm].
    rewrite Hc. destruct (IH Hm) as [tl ->]. simpl. eexists. reflexivity.
Qed.

Lemma plus_run (cls : ascii -> bool) (m rest : string) :
  m <> "" -> all_chars cls m = true -> stops cls rest ->
  exists tl, plus cls (m ++ rest) = (m, rest) :: tl.
Proof.
  intros Hne Hm Hr. destruct m as [| c m]; [congruence |].
  simpl in *. apply andb_true_iff in Hm. destruct Hm as [Hc Hm].
  rewrite Hc. destruct (star_run cls m rest Hm Hr) as [tl ->].
  simpl. eexists. reflexivity.
Qed.

Lemma url_at_sound (s o r n : string) :
  In (o, r, n) (url_at s) ->
  exists post,
    s = "github.com/" ++ o ++ "/" ++ r ++ "/pull/" ++ n ++ post /\
    segment o /\ segment r /\ digits n.
Proof.
  unfold url_at. intro H.
  apply in_flat_map in H. destruct H as [r1 [H1 H]].
  apply in_flat_map in H. destruct H as [[o' r2] [H2 H]].
  apply in_flat_map in H. destruct H as [r3 [H3 H]].
  apply in_flat_map in H. destruct H as [[r' r4] [H4 H]].
  apply in_flat_map in H. destruct H as [r5 [H5 H]].
  apply in_map_iff in H. destruct H as [[n' post] [E H6]].
  injection E as -> -> ->.
  apply lit_sound in H1, H3, H5.
  apply plus_sound in H2, H4, H6.
  destruct H2 as [E2 [Ho Hno]], H4 as [E4 [Hr Hnr]], H6 as [E6 [Hn Hnn]].
  exists post. subst.
  repeat split; assumption.
Qed.

Lemma urlMatch_unfold (s : string) :
  urlMatch s
  = match url_at s with
    | m :: _ => Some m
    | [] => match s with String _ s' => urlMatch s' | EmptyString => None end
    end.
Proof. destruct s; reflexivity. Qed.

Lemma urlMatch_sound (s o r n : string) :
  urlMatch s = Some (o, r, n) -> url_shaped s o r n.
Proof.
  induction s as [| c s IH]; rewrite urlMatch_unfold.
  - destruct (url_at "") as [| m tl] eqn:E; [discriminate |].
    intro H. injection H as ->.
    destruct (url_at_sound "" o r n) as [post [Es Hrest]].
    { rewrite E. now left. }
    exists "", post. split; assumption.
  - destruct (url_at (String c s)) as [| m tl] eqn:E.
    + intro H. destruct (IH H) as [pre [post [Es Hrest]]].
      exists (String c pre), post. split; [simpl; now f_equal | exact Hrest].
    + intro H. injection H as ->.
      destruct (url_at_sound (String c s) o r n) as [post [Es Hrest]].
      { rewrite E. now left. }
      exists "", post. split; assumption.
Qed.

End Matching.

Section ParseInt.
Import Spec Props.

Lemma digit_char (c : ascii) :
  is_digit c = true ->
  is_space c = false /\ Ascii.eqb c "-" = false /\ Ascii.eqb c "+" = false
  /\ 0 <= digit_val c <= 9.
Proof.
  destruct c as [[] [] [] [] [] [] [] []]; intro H;
    try discriminate H; vm_compute; repeat split; discriminate.
Qed.

Lemma take_digits_all (n : string) :
  all_chars is_digit n = true -> take_digits n = n.
Proof.
  induction n as [| c n IH]; simpl; [reflexivity |].
  intro H. apply andb_true_iff in H. destruct H as [Hc Hn].
  now rewrite Hc, IH.
Qed.

Lemma take_digits_digits (s : string) :
  all_chars is_digit (take_digits s) = true.
Proof.
  induction s as [| c s IH]; simpl; [reflexivity |].
  destruct (is_digit c) eqn:Hc; simpl; [now rewrite Hc | reflexivity].
Qed.

Lemma decimal_from_nonneg (s : string) (acc : Z) :
  0 <= acc -> all_chars is_digit s = true -> 0 <= decimal_from acc s.
Proof.
  revert acc. induction s as [| c s IH]; intros acc Ha H;
    cbn [decimal_from]; [exact Ha |].
  cbn [all_chars] in H. apply andb_true_iff in H. destruct H as [Hc Hs].
  apply IH; [| exact Hs].
  destruct (digit_char c Hc) as [_ [_ [_ Hv]]]. lia.
Qed.

Lemma decimal_nonneg (s : string) :
  all_chars is_digit s = true -> 0 <= decimal s.
Proof. apply decimal_from_nonneg. lia. Qed.

Lemma round_magnitude_nonneg (a : Z) : 0 <= a -> 0 <= round_magnitude a.
Proof.
  intro Ha. unfold round_magnitude.
  destruct (Z.ltb_spec a (2 ^ 53)) as [_ | Hb]; [exact Ha |].
  cbv zeta.
  assert (Hp : 0 < 2 ^ (Z.log2 a - 52)).
  { apply Z.pow_pos_nonneg; [lia |].
    assert (53 <= Z.log2 a) by (apply Z.log2_le_pow2; lia). lia. }
  assert (Hq : 0 <= a / 2 ^ (Z.log2 a - 52)) by (apply Z.div_pos; lia).
  destruct (_ <? _); [nia |]. destruct (_ <? _); [nia |].
  destruct (Z.even _); nia.
Qed.

(** Below 2^53 the number read is the integer written. *)
Lemma to_double_small (z : Z) : Z.abs z < 2 ^ 53 -> to_double z = Int z.
Proof.
  intro H. unfold to_double, round_magnitude.
  destruct (Z.ltb_spec (Z.abs z) (2 ^ 53)) as [_ | Hb]; [| lia].
  destruct (Z.leb_spec (2 ^ 1024) (Z.abs z)) as [Hc | _].
  - exfalso. assert (2 ^ 53 < 2 ^ 1024) by (apply Z.pow_lt_mono_r; lia). lia.
  - f_equal. rewrite Z.mul_comm. apply Z.abs_sgn.
Qed.

Lemma to_double_not_nan (z : Z) : isNaN (to_double z) = false.
Proof.
  unfold to_double. destruct (_ <=? _); [destruct (z <? 0) |]; reflexivity.
Qed.

Lemma to_double_in_range (z : Z) : in_double_range (to_double z).
Proof.
  unfold to_double, in_double_range.
  pose proof (round_magnitude_nonneg (Z.abs z) (Z.abs_nonneg z)) as Hr.
  destruct (Z.leb_spec (2 ^ 1024) (round_magnitude (Z.abs z))) as [_ | Hb];
    [destruct (z <? 0); exact I |].
  set (v := round_magnitude (Z.abs z)) in *.
  destruct z; cbn [Z.sgn]; lia.
Qed.

Lemma to_double_sign (z : Z) :
  (0 <= z -> not_negative (to_double z)) /\
  (negative (to_double z) -> z < 0).
Proof.
  unfold to_double.
  pose proof (round_magnitude_nonneg (Z.abs z) (Z.abs_nonneg z)) as Hr.
  set (v := round_magnitude (Z.abs z)) in *.
  destruct (2 ^ 1024 <=? v).
  - destruct (Z.ltb_spec z 0); cbn [not_negative negative]; split; intros;
      solve [lia | exact I].
  - cbn [not_negative negative].
    split; intro H; destruct z; cbn [Z.sgn] in *; lia.
Qed.

(** On a digit string [parseInt] is the double nearest to the value of the
    string. *)
Lemma parseInt_digits (n : string) :
  digits n -> parseInt n = to_double (decimal n) /\ 0 <= decimal n.
Proof.
  intros [Hne Hall]. split; [| now apply decimal_nonneg].
  destruct n as [| c n]; [congruence |].
  pose proof Hall as Hall'.
  simpl in Hall'. apply andb_true_iff in Hall'. destruct Hall' as [Hc Hn].
  destruct (digit_char c Hc) as [Hs [Hm [Hp _]]].
  unfold parseInt. cbn [trimStart]. rewrite Hs, Hm, Hp.
  rewrite (take_digits_all _ Hall).
  f_equal. lia.
Qed.

(** [parseInt] yields a negative number only after a minus sign. *)
Lemma parseInt_minus (s : string) :
  negative (parseInt s) -> exists rest, trimStart s = String "-" rest.
Proof.
  unfold parseInt. destruct (trimStart s) as [| c r].
  - simpl. tauto.
  - destruct (Ascii.eqb_spec c "-") as [-> | _].
    + intros _. now exists r.
    + destruct (Ascii.eqb c "+").
      * destruct (take_digits r) as [| d ds] eqn:E; [simpl; tauto |].
        intro H. apply to_double_sign in H.
        pose proof (decimal_nonneg (String d ds)) as Hd.
        rewrite <- E in Hd. specialize (Hd (take_digits_digits r)).
        rewrite E in Hd. lia.
      * destruct (take_digits (String c r)) as [| d ds] eqn:E; [simpl; tauto |].
        intro H. apply to_double_sign in H.
        pose proof (decimal_nonneg (String d ds)) as Hd.
        rewrite <- E in Hd. specialize (Hd (take_digits_digits (String c r))).
        rewrite E in Hd. lia.
Qed.

Lemma parseInt_negative (s : string) (z : Z) :
  parseInt s = Int z -> z < 0 -> exists rest, trimStart s = String "-" rest.
Proof.
  intros E Hz. apply parseInt_minus. rewrite E. exact Hz.
Qed.

(** What [parseInt] reads is a double or an infinity. *)
Lemma parseInt_in_range (s : string) : in_double_range (parseInt s).
Proof.
  unfold parseInt. destruct (trimStart s) as [| c r]; [exact I |].
  destruct (Ascii.eqb c "-"); [| destruct (Ascii.eqb c "+")];
    match goal with
    | |- context [take_digits ?x] => destruct (take_digits x)
    end; try exact I; apply to_double_in_range.
Qed.

End ParseInt.

Section UrlShape.
Import Spec.

Lemma url_at_complete (O R N : string) :
  segment O -> segment R -> digits N ->
  exists tl,
    url_at ("github.com/" ++ O ++ "/" ++ R ++ "/pull/" ++ N) = (O, R, N) :: tl.
Proof.
  intros [HO1 HO2] [HR1 HR2] [HN1 HN2].
  destruct (plus_run not_slash O ("/" ++ R ++ "/pull/" ++ N) HO1 HO2 eq_refl)
    as [t1 E1].
  destruct (plus_run not_slash R ("/pull/" ++ N) HR1 HR2 eq_refl) as [t2 E2].
  destruct (plus_run is_digit N "" HN1 HN2 I) as [t3 E3].
  rewrite append_nil_r in E3.
  unfold url_at.
  rewrite lit_here. cbn [flat_map]. rewrite E1. cbn [flat_map].
  rewrite lit_here. cbn [flat_map]. rewrite E2. cbn [flat_map].
  rewrite lit_here. cbn [flat_map]. rewrite E3. cbn [map app].
  eexists. reflexivity.
Qed.

Lemma urlMatch_here (s : string) (m : string * string * string)
    (tl : list (string * string * string)) :
  url_at s = m :: tl -> urlMatch s = Some m.
Proof. intro E. rewrite urlMatch_unfold. now rewrite E. Qed.

Lemma urlMatch_pr_url (O R N : string) :
  segment O -> segment R -> digits N ->
  urlMatch (pr_url O R N) = Some (O, R, N).
Proof.
  intros HO HR HN.
  destruct (url_at_complete O R N HO HR HN) as [tl E].
  change (pr_url O R N)
    with ("https://" ++ ("github.com/" ++ O ++ "/" ++ R ++ "/pull/" ++ N)).
  set (rest := "github.com/" ++ O ++ "/" ++ R ++ "/pull/" ++ N) in *.
  cbn. exact (urlMatch_here rest _ tl E).
Qed.

End UrlShape.

(* ================================================================== *)
(** * The reference resolver *)

Section Resolver.
Import Spec Props.

Lemma parse_url_first (pr : string) (repoArg : option string) (o r n : string) :
  urlMatch pr = Some (o, r, n) ->
  parsePrReference pr repoArg = Ok (mkRef o r (parseInt n)).
Proof. intro E. unfold parsePrReference. now rewrite E. Qed.

(** Without a URL the number is the one [parseInt] reads; the owner and
    the repository come from the hint or are left empty. *)
Lemma parse_bare (pr : string) (repoArg : option string) :
  urlMatch pr = None -> isNaN (parseInt pr) = false ->
  exists o r, parsePrReference pr repoArg = Ok (mkRef o r (parseInt pr)).
Proof.
  intros E1 E2. unfold parsePrReference. rewrite E1, E2. cbn [negb].
  destruct repoArg as [rp |]; [| now exists "", ""].
  destruct (truthy rp); [| now exists "", ""].
  destruct (nth_error (split_slash rp) 0) as [o |]; [| now exists "", ""].
  destruct (nth_error (split_slash rp) 1) as [r |]; [| now exists "", ""].
  destruct (truthy o && truthy r); [now exists o, r | now exists "", ""].
Qed.

(** The resolver throws exactly when the regular expression finds no URL
    and [parseInt] reads no number. *)
Lemma parse_throws_iff (pr : string) (repoArg : option string) (e : exn) :
  parsePrReference pr repoArg = Throw e <->
  urlMatch pr = None /\ parseInt pr = NaN /\ e = JsError (invalid_message pr).
Proof.
  split.
  - destruct (urlMatch pr) as [[[o r] n] |] eqn:E1.
    + rewrite (parse_url_first pr repoArg o r n E1). discriminate.
    + destruct (isNaN (parseInt pr)) eqn:E2.
      * unfold parsePrReference. rewrite E1, E2. cbn [negb].
        intro H. injection H as <-.
        destruct (parseInt pr); try discriminate E2. repeat split.
      * destruct (parse_bare pr repoArg E1 E2) as [o [r ->]]. discriminate.
  - intros [E1 [E2 ->]]. unfold parsePrReference. now rewrite E1, E2.
Qed.

Lemma to_double_safe (z : Z) : 0 <= z <= 2 ^ 53 -> to_double z = Int z.
Proof.
  intros [H0 H1]. destruct (Z.eq_dec z (2 ^ 53)) as [-> | Hne].
  - vm_compute. reflexivity.
  - apply to_double_small. lia.
Qed.

(** The claim as the specification words it, that the number is exactly
    the one the URL writes, fails beyond 2^53: the number is a double, and
    2^53 + 1 reads as 2^53. *)
Lemma large_number_rounded :
  ~ (forall (O R N : string) (repoArg : option string),
        segment O -> segment R -> digits N ->
        parsePrReference (pr_url O R N) repoArg = Ok (mkRef O R (Int (decimal N)))).
Proof.
  intro H.
  assert (HO : segment "octo") by (split; [discriminate | reflexivity]).
  assert (HR : segment "cat") by (split; [discriminate | reflexivity]).
  assert (HN : digits "9007199254740993") by (split; [discriminate | reflexivity]).
  specialize (H "octo" "cat" "9007199254740993" None HO HR HN).
  vm_compute in H. discriminate H.
Qed.

(** C9 (amended). The well-formed URL [https://github.com/O/R/pull/N],
    with owner and repository non-empty and free of slashes and N a digit
    string, resolves to exactly the owner O and the repository R, whatever
    the hint, and to the number N denotes when that is at most 2^53; in
    general the number is the double nearest to it.  Whenever the URL shape
    matches, the result is built from its captures alone: the whole string
    is parsed as an integer only when the match fails; the string
    [12 github.com/a/b/pull/7], which also reads as 12, resolves to pull
    request 7 of a/b. *)
Theorem url_reference_resolved :
  (forall (O R N : string) (repoArg : option string),
      segment O -> segment R -> digits N ->
      parsePrReference (pr_url O R N) repoArg
      = Ok (mkRef O R (to_double (decimal N))) /\
      (decimal N <= 2 ^ 53 ->
       parsePrReference (pr_url O R N) repoArg = Ok (mkRef O R (Int (decimal N))))) /\
  (forall (pr : string) (repoArg : option string) (o r n : string),
      urlMatch pr = Some (o, r, n) ->
      parsePrReference pr repoArg = Ok (mkRef o r (parseInt n))) /\
  (parseInt "12 github.com/a/b/pull/7" = Int 12 /\
   parsePrReference "12 github.com/a/b/pull/7" (Some "x/y")
   = Ok (mkRef "a" "b" (Int 7))).
Proof.
  split; [| split; [exact parse_url_first | split; vm_compute; reflexivity]].
  intros O R N repoArg HO HR HN.
  rewrite (parse_url_first _ repoArg O R N (urlMatch_pr_url O R N HO HR HN)).
  destruct (parseInt_digits N HN) as [-> Hz].
  split; [reflexivity |].
  intro Hb. now rewrite to_double_safe.
Qed.

(** [url_reference_resolved] at octo/cat, pull request 123. *)
Lemma url_reference_resolved_witness :
  (segment "octo" /\ segment "cat" /\ digits "123" /\ decimal "123" <= 2 ^ 53) /\
  parsePrReference "https://github.com/octo/cat/pull/123" (Some "other/repo")
  = Ok (mkRef "octo" "cat" (Int 123)).
Proof.
  assert (HO : segment "octo") by (split; [discriminate | reflexivity]).
  assert (HR : segment "cat") by (split; [discriminate | reflexivity]).
  assert (HN : digits "123") by (split; [discriminate | reflexivity]).
  assert (HB : decimal "123" <= 2 ^ 53) by (vm_compute; discriminate).
  split; [exact (conj HO (conj HR (conj HN HB))) |].
  exact (proj2 (proj1 url_reference_resolved "octo" "cat" "123" (Some "other/repo")
                  HO HR HN) HB).
Defined.

(** C2. The resolver accepts [12abc], which is neither a pull-request URL
    nor a base-10 integer: [parseInt] reads the leading 12 and ignores
    the rest, so the reference resolves to pull request 12 instead of
    failing. *)
Theorem numeric_prefix_accepted :
  base10_integer "12abc" = false /\
  urlMatch "12abc" = None /\
  parsePrReference "12abc" None = Ok (mkRef "" "" (Int 12)) /\
  (forall repoArg e, parsePrReference "12abc" repoArg <> Throw e).
Proof.
  repeat split.
  intros repoArg e H. apply parse_throws_iff in H.
  destruct H as [_ [H _]]. discriminate H.
Qed.

(** The claim as the specification words it, that a resolved number is
    at least 1, fails: 0 is accepted. *)
Lemma zero_reference_accepted :
  ~ (forall (pr : string) (repoArg : option string) (r : PrReference),
        parsePrReference pr repoArg = Ok r ->
        exists z, number r = Int z /\ 1 <= z).
Proof.
  intro H. destruct (H "0" None (mkRef "" "" (Int 0)) eq_refl) as [z [E Hz]].
  injection E as <-. lia.
Qed.

(** C3 (amended). On every input the resolver accepts, [number] is never
    NaN: it is an integer below 2^1024 in magnitude or, for a run of
    digits too long for a double, an infinity.  It is not negative when
    the reference holds a URL, and it is negative only when the reference,
    after leading white space, starts with a minus sign.  Zero and
    negative numbers are accepted. *)
Theorem parsed_number_never_nan (pr : string) (repoArg : option string)
    (r : PrReference) :
  parsePrReference pr repoArg = Ok r ->
  isNaN (number r) = false /\
  in_double_range (number r) /\
  (urlMatch pr <> None -> not_negative (number r)) /\
  (negative (number r) -> exists rest, trimStart pr = String "-" rest).
Proof.
  intro H.
  destruct (urlMatch pr) as [[[o rp] n] |] eqn:E1.
  - rewrite (parse_url_first pr repoArg o rp n E1) in H. injection H as <-.
    destruct (urlMatch_sound pr o rp n E1) as [pre [post [_ [_ [_ Hn]]]]].
    destruct (parseInt_digits n Hn) as [En Hz].
    cbn [number]. rewrite En.
    split; [apply to_double_not_nan |].
    split; [apply to_double_in_range |].
    split; [intros _; now apply to_double_sign |].
    intro Hneg. apply to_double_sign in Hneg. lia.
  - destruct (isNaN (parseInt pr)) eqn:E2.
    + assert (T : parsePrReference pr repoArg = Throw (JsError (invalid_message pr))).
      { apply parse_throws_iff. repeat split; [assumption |].
        destruct (parseInt pr); try discriminate E2. reflexivity. }
      congruence.
    + destruct (parse_bare pr repoArg E1 E2) as [o [rp E]].
      rewrite E in H. injection H as <-. cbn [number].
      split; [exact E2 |].
      split; [apply parseInt_in_range |].
      split; [congruence | apply parseInt_minus].
Qed.

(** [parsed_number_never_nan] at the reference [ -5]. *)
Lemma parsed_number_never_nan_witness :
  parsePrReference " -5" None = Ok (mkRef "" "" (Int (-5))) /\
  isNaN (Int (-5)) = false /\
  (negative (Int (-5)) -> exists rest, trimStart " -5" = String "-" rest).
Proof.
  assert (E : parsePrReference " -5" None = Ok (mkRef "" "" (Int (-5))))
    by (vm_compute; reflexivity).
  split; [exact E |].
  destruct (parsed_number_never_nan " -5" None (mkRef "" "" (Int (-5))) E)
    as [H1 [_ [_ H4]]].
  split; [exact H1 | exact H4].
Defined.

End Resolver.

(* ================================================================== *)
(** * The tool boundary *)

Section Boundary.
Import Spec.

Lemma snapshot_on_error_object (parsed : PrReference) (e : exn) :
  is_error_object (stringify (SnapshotTool.on_error parsed e)) = true.
Proof.
  destruct e as [message |]; [| reflexivity].
  unfold SnapshotTool.on_error.
  repeat match goal with
         | |- context [includes message ?p] => destruct (includes message p)
         end; reflexivity.
Qed.

Lemma comments_on_error_object (e : exn) :
  is_error_object (stringify (CommentsTool.on_error e)) = true.
Proof.
  destruct e as [message |]; [| reflexivity].
  unfold CommentsTool.on_error.
  repeat match goal with
         | |- context [includes message ?p] => destruct (includes message p)
         end; reflexivity.
Qed.

Lemma review_on_error_object (w : World) (e : exn) :
  is_error_object (stringify (ReviewTool.on_error w e)) = true.
Proof.
  destruct e as [message |]; [| reflexivity].
  unfold ReviewTool.on_error, ReviewTool.api_error_result.
  destruct (bracesMatch message) as [text |].
  - destruct (json_parse w text) as [apiError |].
    + destruct (get_prop apiError "message") as [m |];
        destruct (get_prop apiError "errors") as [es |];
        try (destruct m); try (destruct es);
        unfold ReviewTool.generic_error;
        repeat match goal with
               | |- context [includes message ?p] => destruct (includes message p)
               end; reflexivity.
    + unfold ReviewTool.generic_error.
      repeat match goal with
             | |- context [includes message ?p] => destruct (includes message p)
             end; reflexivity.
  - unfold ReviewTool.generic_error.
    repeat match goal with
           | |- context [includes message ?p] => destruct (includes message p)
           end; reflexivity.
Qed.

(** Past the parse of the reference the snapshot tool returns: the
    snapshot, or a structured error. *)
Lemma snapshot_returns (w : World) (pr : string) (repoArg : option string)
    (parsed : PrReference) :
  parsePrReference pr repoArg = Ok parsed ->
  exists j,
    fst (run (SnapshotTool.execute pr repoArg) w) = Ok j /\
    (is_error_object j = true \/
     exists md d fs cs, j = stringify (SnapshotTool.output md d fs cs)).
Proof.
  intro Hp.
  unfold run, SnapshotTool.execute, Gh.bind at 1, lift. rewrite Hp.
  unfold try_catch, Gh.bind, invoke, ret.
  destruct (pr_view_metadata w _ _) as [md | e];
    [| eexists; split; [reflexivity | left; apply snapshot_on_error_object]].
  destruct (pr_diff w _ _) as [d | e];
    [| eexists; split; [reflexivity | left; apply snapshot_on_error_object]].
  destruct (pr_view_files w _ _) as [fs | e];
    [| eexists; split; [reflexivity | left; apply snapshot_on_error_object]].
  destruct (pr_view_commits w _ _) as [cs | e];
    [| eexists; split; [reflexivity | left; apply snapshot_on_error_object]].
  eexists. split; [reflexivity |]. right. now exists md, d, fs, cs.
Qed.

Lemma comments_returns (w : World) (pr : string) (repoArg : option string)
    (parsed : PrReference) :
  parsePrReference pr repoArg = Ok parsed ->
  exists j,
    fst (run (CommentsTool.execute pr repoArg) w) = Ok j /\
    (is_error_object j = true \/
     exists rcs ics rvs byFile ths,
       j = stringify (CommentsTool.output rcs ics rvs byFile ths)).
Proof.
  intro Hp.
  unfold run, CommentsTool.execute, Gh.bind at 1, lift. rewrite Hp.
  unfold Gh.bind at 1. rewrite comments_context_run.
  destruct (resolved_context parsed w) as [ctx |];
    [| eexists; split; [reflexivity | left; reflexivity]].
  unfold try_catch, Gh.bind, invoke, lift, ret.
  destruct (api_review_comments w _ _) as [rc | e];
    [| eexists; split; [reflexivity | left; apply comments_on_error_object]].
  destruct (api_issue_comments w _ _) as [ic | e];
    [| eexists; split; [reflexivity | left; apply comments_on_error_object]].
  destruct (api_reviews w _ _) as [rv | e];
    [| eexists; split; [reflexivity | left; apply comments_on_error_object]].
  destruct (CommentsTool.commentsByFileOf _) as [byFile | e];
    [| eexists; split; [reflexivity | left; apply comments_on_error_object]].
  eexists. split; [reflexivity |]. right. eexists _, _, _, _, _. reflexivity.
Qed.

Lemma review_returns (w : World) (args : ReviewTool.Args) (parsed : PrReference) :
  parsePrReference (ReviewTool.a_pr args) (ReviewTool.a_repo args) = Ok parsed ->
  exists j,
    fst (run (ReviewTool.execute args) w) = Ok j /\
    (is_error_object j = true \/ field "dryRun" j = Some (JBool true)).
Proof.
  intro Hp. rewrite (review_execute_run w args parsed Hp).
  destruct (resolved_context parsed w) as [ctx |];
    [| eexists; split; [reflexivity | left; reflexivity]].
  cbv zeta.
  destruct (api_head_sha w ctx (number parsed)) as [out | e].
  - destruct (ReviewTool.default false (ReviewTool.a_dryRun args)).
    + eexists. split; [reflexivity | right; reflexivity].
    + eexists. split; [reflexivity |]. left. apply review_on_error_object.
  - eexists. split; [reflexivity | left].
    destruct e; reflexivity.
Qed.

Lemma snapshot_throws (w : World) (pr : string) (repoArg : option string) (e : exn) :
  parsePrReference pr repoArg = Throw e ->
  run (SnapshotTool.execute pr repoArg) w = (Throw e, []).
Proof.
  intro Hp. unfold run, SnapshotTool.execute, Gh.bind at 1, lift. now rewrite Hp.
Qed.

Lemma comments_throws (w : World) (pr : string) (repoArg : option string) (e : exn) :
  parsePrReference pr repoArg = Throw e ->
  run (CommentsTool.execute pr repoArg) w = (Throw e, []).
Proof.
  intro Hp. unfold run, CommentsTool.execute, Gh.bind at 1, lift. now rewrite Hp.
Qed.

(** C1. A malformed reference is thrown past the tool boundary: on the
    reference [abc] each of the three tools throws the [Error] of
    [parsePrReference], before any invocation, instead of returning an
    object with an [error] field. *)
Theorem invalid_reference_is_thrown (w : World) :
  run (SnapshotTool.execute "abc" None) w
  = (Throw (JsError "Invalid PR reference: abc. Provide a PR URL or number."), []) /\
  run (CommentsTool.execute "abc" None) w
  = (Throw (JsError "Invalid PR reference: abc. Provide a PR URL or number."), []) /\
  run (ReviewTool.execute (ReviewTool.mkArgs "abc" None "Looks good" None None None)) w
  = (Throw (JsError "Invalid PR reference: abc. Provide a PR URL or number."), []).
Proof.
  split; [| split].
  - now apply snapshot_throws.
  - now apply comments_throws.
  - now apply review_execute_throw.
Qed.

End Boundary.

Section EmptyComments.
Import ReviewTool Spec.

Lemma review_on_error_no_success (w : World) (e : exn) :
  field "success" (stringify (on_error w e)) = None.
Proof.
  destruct e as [message |]; [| reflexivity].
  unfold on_error, api_error_result.
  assert (G : field "success" (stringify (generic_error message)) = None).
  { unfold generic_error.
    repeat match goal with
           | |- context [includes message ?p] => destruct (includes message p)
           end; reflexivity. }
  destruct (bracesMatch message) as [text |]; [| exact G].
  destruct (json_parse w text) as [apiError |]; [| exact G].
  destruct (get_prop apiError "message") as [m |]; [| exact G].
  destruct (get_prop apiError "errors") as [es |]; [| exact G].
  destruct m; destruct es; reflexivity.
Qed.

(** C8. A review built from no inline comment has exactly the properties
    [commit_id], [body] and [event]: [comments] is absent, neither an
    empty array nor null, and it is present exactly when there is a
    comment.  The submission itself does not proceed: the command that is
    to post this payload is rejected by the shell, so after the two
    lookups the tool returns a structured error, no confirmation, and no
    POST is invoked. *)
Theorem empty_comments_omitted :
  (forall commitId body event,
      stringify (reviewPayload commitId body event [])
      = JObj [("commit_id", JStr commitId); ("body", JStr body);
              ("event", JStr (event_string event))] /\
      field "comments" (stringify (reviewPayload commitId body event [])) = None) /\
  (forall commitId body event comments,
      has_field "comments" (reviewPayload commitId body event comments)
      = negb (Nat.eqb (List.length comments) 0)) /\
  (forall w args parsed ctx out,
      default [] (a_comments args) = [] ->
      default false (a_dryRun args) = false ->
      parsePrReference (a_pr args) (a_repo args) = Ok parsed ->
      resolved_context parsed w = Some ctx ->
      api_head_sha w ctx (number parsed) = Ok out ->
      let event := default COMMENT (a_event args) in
      let payload := JObj [("commit_id", JStr (trim out));
                          ("body", JStr (a_body args));
                          ("event", JStr (event_string event))] in
      let answer := stringify (on_error w (post_command w ctx (number parsed) payload)) in
      run (execute args) w
      = (Ok answer, (context_calls parsed ++ [ApiHeadSha ctx (number parsed)])%list) /\
      is_error_object answer = true /\
      field "success" answer = None).
Proof.
  split; [intros; split; reflexivity |].
  split.
  - intros commitId body event comments. destruct comments; reflexivity.
  - intros w args parsed ctx out Hc Hd Hp Hctx Hsha event payload answer.
    split; [| split].
    + rewrite (review_execute_run w args parsed Hp), Hctx. cbv zeta.
      now rewrite Hsha, Hd, Hc.
    + apply review_on_error_object.
    + apply review_on_error_no_success.
Qed.

(** [empty_comments_omitted] in the example world. *)
Lemma empty_comments_omitted_witness :
  run (execute (example_args [] false)) example_world
  = (Ok (error_object "Redirection with no file"),
     [ApiHeadSha "octo/cat" (Int 7)]).
Proof.
  exact (proj1 (proj2 (proj2 empty_comments_omitted) example_world
                  (example_args [] false) (mkRef "octo" "cat" (Int 7))
                  "octo/cat" "abc123" eq_refl eq_refl eq_refl eq_refl eq_refl)).
Defined.

End EmptyComments.

(* ================================================================== *)
(** * More on the reference resolver *)

Section ResolverMore.
Import Spec Props.

Lemma all_chars_app (cls : ascii -> bool) (a b : string) :
  all_chars cls (a ++ b) = all_chars cls a && all_chars cls b.
Proof.
  induction a as [| c a IH]; simpl; [reflexivity |].
  now rewrite IH, andb_assoc.
Qed.

Lemma url_at_needs_g (c : ascii) (s : string) :
  Ascii.eqb c "g" = false -> url_at (String c s) = [].
Proof.
  intro H. unfold url_at. cbn [lit].
  rewrite Ascii.eqb_sym in H. now rewrite H.
Qed.

(** No match starts inside a text without the letter g. *)
Lemma urlMatch_skip (pre s : string) :
  lacks "g" pre = true -> urlMatch (pre ++ s) = urlMatch s.
Proof.
  unfold lacks. induction pre as [| c pre IH]; intro H; [reflexivity |].
  cbn [all_chars] in H. apply andb_true_iff in H. destruct H as [Hc Hp].
  apply negb_true_iff in Hc.
  change (String c pre ++ s) with (String c (pre ++ s)).
  rewrite urlMatch_unfold, (url_at_needs_g c _ Hc). now apply IH.
Qed.

Lemma urlMatch_none (s : string) : lacks "g" s = true -> urlMatch s = None.
Proof.
  intro H. rewrite <- (append_nil_r s). rewrite (urlMatch_skip s "" H).
  reflexivity.
Qed.

Lemma digit_not_g (c : ascii) : is_digit c = true -> negb (Ascii.eqb c "g") = true.
Proof.
  destruct c as [[] [] [] [] [] [] [] []]; intro H;
    try discriminate H; reflexivity.
Qed.

Lemma all_chars_impl (f g : ascii -> bool) (s : string) :
  (forall c, f c = true -> g c = true) ->
  all_chars f s = true -> all_chars g s = true.
Proof.
  intro Hfg. induction s as [| c s IH]; simpl; [reflexivity |].
  intro H. apply andb_true_iff in H. destruct H as [Hc Hs].
  now rewrite (Hfg c Hc), IH.
Qed.

Lemma digits_lack_g (n : string) : all_chars is_digit n = true -> lacks "g" n = true.
Proof. apply all_chars_impl. exact digit_not_g. Qed.

Lemma url_at_complete_post (O R N post : string) :
  segment O -> segment R -> digits N -> stops is_digit post ->
  exists tl,
    url_at ("github.com/" ++ O ++ "/" ++ R ++ "/pull/" ++ N ++ post)
    = (O, R, N) :: tl.
Proof.
  intros [HO1 HO2] [HR1 HR2] [HN1 HN2] Hpost.
  destruct (plus_run not_slash O ("/" ++ R ++ "/pull/" ++ N ++ post) HO1 HO2 eq_refl)
    as [t1 E1].
  destruct (plus_run not_slash R ("/pull/" ++ N ++ post) HR1 HR2 eq_refl) as [t2 E2].
  destruct (plus_run is_digit N post HN1 HN2 Hpost) as [t3 E3].
  unfold url_at.
  rewrite lit_here. cbn [flat_map]. rewrite E1. cbn [flat_map].
  rewrite lit_here. cbn [flat_map]. rewrite E2. cbn [flat_map].
  rewrite lit_here. cbn [flat_map]. rewrite E3. cbn [map app].
  eexists. reflexivity.
Qed.

(** X1. A pull-request URL is found inside surrounding text: text before it
    that has no letter g (a scheme, [www.], blanks) and text after the
    number that does not start with a digit ([/files], a fragment) are
    ignored, and the hint is not consulted.  The number is the double
    nearest to the digits of the URL, the very number they write when it
    is at most 2^53. *)
Theorem url_found_in_text (pre O R N post : string) (repoArg : option string) :
  lacks "g" pre = true -> segment O -> segment R -> digits N ->
  stops is_digit post ->
  parsePrReference
    (pre ++ "github.com/" ++ O ++ "/" ++ R ++ "/pull/" ++ N ++ post) repoArg
  = Ok (mkRef O R (to_double (decimal N))) /\
  (decimal N <= 2 ^ 53 ->
   parsePrReference
     (pre ++ "github.com/" ++ O ++ "/" ++ R ++ "/pull/" ++ N ++ post) repoArg
   = Ok (mkRef O R (Int (decimal N)))).
Proof.
  intros Hpre HO HR HN Hpost.
  destruct (url_at_complete_post O R N post HO HR HN Hpost) as [tl E].
  assert (M : urlMatch (pre ++ "github.com/" ++ O ++ "/" ++ R ++ "/pull/" ++ N ++ post)
              = Some (O, R, N)).
  { rewrite (urlMatch_skip pre _ Hpre). exact (urlMatch_here _ _ tl E). }
  rewrite (parse_url_first _ repoArg O R N M).
  destruct (parseInt_digits N HN) as [-> Hz].
  split; [reflexivity |].
  intro Hb. now rewrite to_double_safe.
Qed.

Lemma url_found_in_text_witness :
  parsePrReference "see https://www.github.com/octo/cat/pull/42/files#diff" None
  = Ok (mkRef "octo" "cat" (Int 42)).
Proof.
  apply (url_found_in_text "see https://www." "octo" "cat" "42" "/files#diff" None).
  - reflexivity.
  - split; [discriminate | reflexivity].
  - split; [discriminate | reflexivity].
  - split; [discriminate | reflexivity].
  - reflexivity.
  - vm_compute. discriminate.
Defined.

End ResolverMore.

Section RepoHint.
Import Spec Props.

Lemma split_slash_cons (s : string) : exists h t, split_slash s = h :: t.
Proof.
  induction s as [| c s [h [t IH]]]; simpl; [now exists "", [] |].
  destruct (Ascii.eqb c "/"); [now exists "", (split_slash s) |].
  rewrite IH. now exists (String c h), t.
Qed.

Lemma split_head (m r : string) :
  all_chars not_slash m = true ->
  split_slash (m ++ String "/" r) = m :: split_slash r.
Proof.
  induction m as [| c m IH]; intro H; [reflexivity |].
  cbn [all_chars] in H. apply andb_true_iff in H. destruct H as [Hc Hm].
  unfold not_slash in Hc. apply negb_true_iff in Hc.
  change (String c m ++ String "/" r) with (String c (m ++ String "/" r)).
  cbn [split_slash]. now rewrite Hc, (IH Hm).
Qed.

Lemma split_single (m : string) :
  all_chars not_slash m = true -> split_slash m = [m].
Proof.
  induction m as [| c m IH]; intro H; [reflexivity |].
  cbn [all_chars] in H. apply andb_true_iff in H. destruct H as [Hc Hm].
  unfold not_slash in Hc. apply negb_true_iff in Hc.
  cbn [split_slash]. now rewrite Hc, (IH Hm).
Qed.

Lemma split_pieces (s : string) :
  Forall (fun p => all_chars not_slash p = true) (split_slash s).
Proof.
  induction s as [| c s IH]; simpl; [repeat constructor |].
  destruct (Ascii.eqb c "/") eqn:Hc; [constructor; [reflexivity | exact IH] |].
  destruct (split_slash s) as [| h t]; [repeat constructor; simpl |].
  - unfold not_slash. now rewrite Hc.
  - inversion IH as [| ? ? Hh Ht]; subst. constructor; [| exact Ht].
    cbn [all_chars]. unfold not_slash at 1. now rewrite Hc, Hh.
Qed.

(** The first two pieces of a hint [O/R], [O/R/...]. *)
Lemma split_hint (O R more : string) :
  all_chars not_slash O = true -> all_chars not_slash R = true ->
  stops not_slash more ->
  exists tl, split_slash (O ++ "/" ++ R ++ more) = O :: R :: tl.
Proof.
  intros HO HR Hm.
  change (O ++ "/" ++ R ++ more) with (O ++ String "/" (R ++ more)).
  rewrite (split_head O _ HO).
  destruct more as [| c more].
  - rewrite append_nil_r, (split_single R HR). now exists [].
  - simpl in Hm. unfold not_slash in Hm. apply negb_false_iff in Hm.
    apply Ascii.eqb_eq in Hm. subst c.
    rewrite (split_head R _ HR). eexists. reflexivity.
Qed.

Lemma truthy_nonempty (s : string) : truthy s = true <-> s <> "".
Proof. destruct s; simpl; split; congruence. Qed.

(** X2. A bare number with a hint [owner/repo] resolves to that owner, that
    repository and the number; what follows a further slash in the hint is
    dropped.  When the owner or the repository half of the hint is empty
    the hint is ignored and both are left empty. *)
Theorem hint_names_repository (pr O R more : string) (z : Z) :
  urlMatch pr = None -> parseInt pr = Int z ->
  all_chars not_slash O = true -> all_chars not_slash R = true ->
  stops not_slash more ->
  parsePrReference pr (Some (O ++ "/" ++ R ++ more))
  = Ok (if truthy O && truthy R then mkRef O R (Int z) else mkRef "" "" (Int z)).
Proof.
  intros E1 E2 HO HR Hm.
  unfold parsePrReference. rewrite E1, E2. cbn [isNaN negb].
  destruct (split_hint O R more HO HR Hm) as [tl ->].
  cbn [nth_error].
  destruct (truthy (O ++ "/" ++ R ++ more)) eqn:Ht.
  - destruct (truthy O && truthy R); reflexivity.
  - destruct O; [reflexivity | discriminate Ht].
Qed.

Lemma hint_names_repository_witness :
  parsePrReference "42" (Some "octo/cat/extra") = Ok (mkRef "octo" "cat" (Int 42)) /\
  parsePrReference "42" (Some "octo/") = Ok (mkRef "" "" (Int 42)).
Proof.
  split.
  - exact (hint_names_repository "42" "octo" "cat" "/extra" 42
             eq_refl eq_refl eq_refl eq_refl eq_refl).
  - exact (hint_names_repository "42" "octo" "" "" 42
             eq_refl eq_refl eq_refl eq_refl I).
Defined.

(** X3. A bare number without a hint, or with a hint that has no slash,
    leaves owner and repository empty: the repository is left to the
    ambient context. *)
Theorem bare_number_defers_repository (pr : string) (repoArg : option string) (z : Z) :
  urlMatch pr = None -> parseInt pr = Int z ->
  match repoArg with Some h => all_chars not_slash h = true | None => True end ->
  parsePrReference pr repoArg = Ok (mkRef "" "" (Int z)).
Proof.
  intros E1 E2 Hh.
  unfold parsePrReference. rewrite E1, E2. cbn [isNaN negb].
  destruct repoArg as [h |]; [| reflexivity].
  rewrite (split_single h Hh). cbn [nth_error].
  destruct (truthy h); reflexivity.
Qed.

Lemma bare_number_defers_repository_witness :
  parsePrReference "42" (Some "octo") = Ok (mkRef "" "" (Int 42)) /\
  parsePrReference "42" None = Ok (mkRef "" "" (Int 42)).
Proof.
  split.
  - exact (bare_number_defers_repository "42" (Some "octo") 42 eq_refl eq_refl eq_refl).
  - exact (bare_number_defers_repository "42" None 42 eq_refl eq_refl I).
Defined.

(** The two shapes of a resolved reference. *)
Lemma owner_repo_cases (pr : string) (repoArg : option string)
    (r : PrReference) :
  parsePrReference pr repoArg = Ok r ->
  repository_known r \/ repository_left_open r.
Proof.
  intro H.
  destruct (urlMatch pr) as [[[o rp] n] |] eqn:E1.
  - rewrite (parse_url_first pr repoArg o rp n E1) in H. injection H as <-.
    destruct (urlMatch_sound pr o rp n E1) as [pre [post [_ [Ho [Hr _]]]]].
    left. split; assumption.
  - unfold parsePrReference in H. rewrite E1 in H.
    destruct (negb (isNaN (parseInt pr))); [| discriminate H].
    assert (A : repository_left_open (mkRef "" "" (parseInt pr))) by (split; reflexivity).
    destruct repoArg as [h |]; [| injection H as <-; now right].
    destruct (truthy h); [| injection H as <-; now right].
    pose proof (split_pieces h) as P.
    destruct (split_slash h) as [| o [| rp tl]]; cbn [nth_error] in H;
      try (injection H as <-; now right).
    destruct (truthy o) eqn:To; destruct (truthy rp) eqn:Tr; cbn [andb] in H;
      try (injection H as <-; now right).
    injection H as <-. left.
    inversion P as [| ? ? Po P']; subst. inversion P' as [| ? ? Pr _]; subst.
    split; (split; [now apply truthy_nonempty | assumption]).
Qed.

(** X4. Whatever the input, a resolved reference names both an owner and a
    repository, each non-empty and free of slashes, or neither: never one
    without the other. *)
Theorem owner_and_repo_together (pr : string) (repoArg : option string)
    (r : PrReference) :
  parsePrReference pr repoArg = Ok r ->
  (repository_known r \/ repository_left_open r) /\
  truthy (owner r) = truthy (repo r).
Proof.
  intro H. destruct (owner_repo_cases pr repoArg r H) as [K | L].
  - split; [now left |]. destruct K as [[Ho _] [Hr _]].
    apply truthy_nonempty in Ho, Hr. now rewrite Ho, Hr.
  - split; [now right |]. destruct L as [-> ->]. reflexivity.
Qed.

Lemma owner_and_repo_together_witness :
  (repository_known (mkRef "a" "b" (Int 12))
   \/ repository_left_open (mkRef "a" "b" (Int 12))) /\
  truthy "a" = truthy "b".
Proof.
  exact (owner_and_repo_together "12" (Some "a/b/c") (mkRef "a" "b" (Int 12)) eq_refl).
Defined.

End RepoHint.

Section Rejection.
Import Spec Props.

Lemma parseInt_nan_iff (s : string) :
  parseInt s = NaN <-> take_digits (unsigned (trimStart s)) = "".
Proof.
  unfold parseInt, unsigned.
  destruct (trimStart s) as [| c r]; [simpl; tauto |].
  assert (N : forall z, to_double z = NaN <-> False).
  { intro z. pose proof (to_double_not_nan z) as H.
    split; [intro E; rewrite E in H; discriminate H | tauto]. }
  destruct (Ascii.eqb c "-"); cbn [orb].
  - destruct (take_digits r); [tauto |]. rewrite N. split; [tauto | discriminate].
  - destruct (Ascii.eqb c "+").
    + destruct (take_digits r); [tauto |]. rewrite N. split; [tauto | discriminate].
    + destruct (take_digits (String c r)); [tauto |]. rewrite N.
      split; [tauto | discriminate].
Qed.

Lemma take_digits_no_digit (s : string) :
  no_digit s = true -> take_digits s = "".
Proof.
  unfold no_digit. destruct s as [| c s]; [reflexivity |].
  cbn [all_chars take_digits]. intro H.
  apply andb_true_iff in H. destruct H as [Hc _].
  apply negb_true_iff in Hc. now rewrite Hc.
Qed.

Lemma trimStart_no_digit (s : string) :
  no_digit s = true -> no_digit (trimStart s) = true.
Proof.
  unfold no_digit. induction s as [| c s IH]; [reflexivity |].
  intro H. cbn [trimStart]. destruct (is_space c); [| exact H].
  cbn [all_chars] in H. apply andb_true_iff in H. now apply IH.
Qed.

Lemma unsigned_no_digit (s : string) :
  no_digit s = true -> no_digit (unsigned s) = true.
Proof.
  unfold no_digit, unsigned. destruct s as [| c s]; [reflexivity |].
  intro H. destruct (Ascii.eqb c "-" || Ascii.eqb c "+"); [| exact H].
  cbn [all_chars] in H. now apply andb_true_iff in H.
Qed.

Lemma urlMatch_has_digit (s : string) : no_digit s = true -> urlMatch s = None.
Proof.
  intro H. destruct (urlMatch s) as [[[o r] n] |] eqn:E; [| reflexivity].
  exfalso.
  destruct (urlMatch_sound s o r n E) as [pre [post [-> [_ [_ [Hn Hd]]]]]].
  unfold no_digit in H.
  do 6 (rewrite all_chars_app in H; apply andb_true_iff in H;
        destruct H as [_ H]).
  rewrite all_chars_app in H. apply andb_true_iff in H. destruct H as [H _].
  destruct n as [| c n]; [congruence |].
  cbn [all_chars] in H, Hd.
  apply andb_true_iff in H. apply andb_true_iff in Hd.
  destruct H as [H _]. destruct Hd as [Hd _]. rewrite Hd in H. discriminate H.
Qed.

(** X5. The resolver rejects a reference exactly when it holds no
    pull-request URL and, after leading white space and an optional sign,
    does not start with a digit; the hint plays no part in this.  The
    error is the [Error] with the message
    [Invalid PR reference: <ref>. Provide a PR URL or number.]; in
    particular every reference without a digit is rejected. *)
Theorem reference_rejected_iff :
  (forall (pr : string) (repoArg : option string) (e : exn),
      parsePrReference pr repoArg = Throw e <->
      (urlMatch pr = None /\ take_digits (unsigned (trimStart pr)) = "" /\
       e = JsError ("Invalid PR reference: " ++ pr ++ ". Provide a PR URL or number."))) /\
  (forall (pr : string) (repoArg : option string),
      no_digit pr = true ->
      parsePrReference pr repoArg
      = Throw (JsError ("Invalid PR reference: " ++ pr ++ ". Provide a PR URL or number."))).
Proof.
  assert (A : forall pr repoArg e,
             parsePrReference pr repoArg = Throw e <->
             (urlMatch pr = None /\ take_digits (unsigned (trimStart pr)) = "" /\
              e = JsError ("Invalid PR reference: " ++ pr ++ ". Provide a PR URL or number."))).
  { intros pr repoArg e. rewrite parse_throws_iff, parseInt_nan_iff.
    unfold invalid_message. tauto. }
  split; [exact A |].
  intros pr repoArg H. apply A. split; [now apply urlMatch_has_digit |].
  split; [| reflexivity].
  apply take_digits_no_digit, unsigned_no_digit, trimStart_no_digit, H.
Qed.

Lemma reference_rejected_iff_witness :
  parsePrReference "the latest one" (Some "octo/cat")
  = Throw (JsError "Invalid PR reference: the latest one. Provide a PR URL or number.").
Proof.
  exact (proj2 reference_rejected_iff "the latest one" (Some "octo/cat") eq_refl).
Defined.

End Rejection.

(* ================================================================== *)
(** * The bot classifier *)

Section BotClassifier.
Import CommentsTool Spec Props.

Lemma ends_with_iff (s p : string) :
  ends_with s p = true <-> exists pre, s = pre ++ p.
Proof.
  split.
  - induction s as [| c s IH]; cbn [ends_with]; intro H;
      apply orb_true_iff in H; destruct H as [H | H].
    + apply String.eqb_eq in H. now exists "".
    + discriminate H.
    + apply String.eqb_eq in H. now exists "".
    + destruct (IH H) as [pre ->]. now exists (String c pre).
  - intros [pre ->]. induction pre as [| c pre IH].
    + destruct p; cbn [append ends_with]; now rewrite String.eqb_refl.
    + change (String c pre ++ p) with (String c (pre ++ p)).
      cbn [ends_with]. rewrite IH. apply orb_true_r.
Qed.

Lemma toLower_app (a b : string) : toLower (a ++ b) = toLower a ++ toLower b.
Proof. induction a as [| c a IH]; simpl; [reflexivity | now rewrite IH]. Qed.

(** X6. A login is classified as a bot exactly when, in lower case, it ends
    in [bot] or in [[bot]] or is one of github-actions, renovate, codecov,
    sonarcloud, netlify, vercel.  The letter case never matters, and every
    login that ends in [bot], in any case, is classified as a bot whatever
    precedes it. *)
Theorem bot_classification :
  (forall login : string,
      isLikelyBot login = true <->
      ((exists pre, toLower login = pre ++ "bot") \/
       (exists pre, toLower login = pre ++ "[bot]") \/
       In (toLower login) named_bots)) /\
  (forall l1 l2 : string, toLower l1 = toLower l2 -> isLikelyBot l1 = isLikelyBot l2) /\
  (forall pre suffix : string,
      toLower suffix = "bot" -> isLikelyBot (pre ++ suffix) = true).
Proof.
  assert (A : forall login : string,
             isLikelyBot login = true <->
             ((exists pre, toLower login = pre ++ "bot") \/
              (exists pre, toLower login = pre ++ "[bot]") \/
              In (toLower login) named_bots)).
  { intro login. unfold isLikelyBot, botPatterns, named_bots.
    cbn [existsb test In].
    rewrite !orb_true_iff, !ends_with_iff, !String.eqb_eq.
    split.
    - intros [H | [H | [H | [H | [H | [H | [H | [H | [H | H]]]]]]]]];
        try discriminate H; try tauto;
        try (right; right; rewrite H; cbn; tauto).
      left. exists "dependa". now rewrite H.
    - intros [H | [H | [H | [H | [H | [H | [H | [H | []]]]]]]]];
        try (rewrite <- H); tauto. }
  split; [exact A | split].
  - intros l1 l2 H. unfold isLikelyBot, botPatterns.
    cbn [existsb test]. now rewrite H.
  - intros pre suffix H. apply A. left. exists (toLower pre).
    now rewrite toLower_app, H.
Qed.

Lemma bot_classification_witness :
  isLikelyBot "Dependabot" = isLikelyBot "DEPENDABOT" /\
  isLikelyBot "Abbot" = true.
Proof.
  split.
  - exact (proj1 (proj2 bot_classification) "Dependabot" "DEPENDABOT" eq_refl).
  - exact (proj2 (proj2 bot_classification) "Ab" "bot" eq_refl).
Defined.

End BotClassifier.

(* ================================================================== *)
(** * Grouping the review comments by file *)

Section GroupByFile.
Import CommentsTool Spec Props.

Lemma own_keys (k : string) (o : ByFile) :
  existsb (String.eqb k) (map fst o)
  = match own k o with Some _ => true | None => false end.
Proof.
  induction o as [| [k' v] o IH]; simpl; [reflexivity |].
  destruct (String.eqb k k'); [reflexivity | exact IH].
Qed.

Lemma own_push_at (k k' : string) (c : ReviewComment) (o : ByFile) :
  own k' (push_at k c o)
  = if String.eqb k' k
    then option_map (fun v => (v ++ [c])%list) (own k' o)
    else own k' o.
Proof.
  induction o as [| [k0 v] o IH]; simpl.
  - now destruct (String.eqb k' k).
  - destruct (String.eqb_spec k k0) as [-> | Hk]; simpl.
    + destruct (String.eqb_spec k' k0) as [-> | Hk']; reflexivity.
    + destruct (String.eqb_spec k' k0) as [-> | Hk'].
      * destruct (String.eqb_spec k0 k); [congruence | reflexivity].
      * exact IH.
Qed.

Lemma own_app_new (k k' : string) (c : ReviewComment) (o : ByFile) :
  own k' (o ++ [(k, [c])])%list
  = match own k' o with
    | Some v => Some v
    | None => if String.eqb k' k then Some [c] else None
    end.
Proof.
  induction o as [| [k0 v] o IH]; simpl; [reflexivity |].
  destruct (String.eqb k' k0); [reflexivity | exact IH].
Qed.

Lemma keys_push_at (k : string) (c : ReviewComment) (o : ByFile) :
  map fst (push_at k c o) = map fst o.
Proof.
  induction o as [| [k0 v] o IH]; simpl; [reflexivity |].
  destruct (String.eqb k k0); simpl; [reflexivity | now rewrite IH].
Qed.

Lemma grouped_push_at (k : string) (c : ReviewComment) (o : ByFile) (v : list ReviewComment) :
  own k o = Some v ->
  List.length (grouped (push_at k c o)) = S (List.length (grouped o)).
Proof.
  unfold grouped. induction o as [| [k0 v0] o IH]; simpl; [discriminate |].
  destruct (String.eqb k k0); simpl.
  - intros _. rewrite !length_app. simpl. lia.
  - intro H. rewrite !length_app, (IH H). lia.
Qed.

Lemma grouped_app_new (k : string) (c : ReviewComment) (o : ByFile) :
  List.length (grouped (o ++ [(k, [c])])%list) = S (List.length (grouped o)).
Proof.
  unfold grouped. rewrite map_app, concat_app, length_app. simpl. lia.
Qed.

Lemma filter_at_path_cons (k : string) (c : ReviewComment) (cs : list ReviewComment) :
  filter (at_path k) (c :: cs)
  = if String.eqb (path c) k then c :: filter (at_path k) cs
    else filter (at_path k) cs.
Proof. reflexivity. Qed.

(** The buckets after the loop has run over [cs] from the buckets [o]. *)
Lemma group_from_buckets (cs : list ReviewComment) (o o' : ByFile) :
  group_from o cs = Ok o' ->
  map fst o' = (map fst o ++ first_seen (map fst o) (map path cs))%list /\
  List.length (grouped o') = (List.length (grouped o) + List.length cs)%nat /\
  forall k,
    own k o'
    = match own k o with
      | Some v => Some ((v ++ filter (at_path k) cs)%list)
      | None => match filter (at_path k) cs with [] => None | l => Some l end
      end.
Proof.
  revert o. induction cs as [| c cs IH]; intros o H.
  - injection H as <-. simpl. rewrite app_nil_r. split; [reflexivity |].
    split; [lia |]. intro k.
    destruct (own k o); [now rewrite app_nil_r | reflexivity].
  - cbn [group_from] in H.
    destruct (add_comment o c) as [o1 |] eqn:Ha; [| discriminate H].
    destruct (IH o1 H) as [Hk [Hl Ho]]. clear IH.
    unfold add_comment in Ha. cbn [map first_seen]. rewrite own_keys.
    destruct (own (path c) o) as [v |] eqn:Hown.
    + injection Ha as <-.
      rewrite keys_push_at in Hk.
      split; [exact Hk |].
      split; [rewrite Hl, (grouped_push_at _ _ _ v Hown); simpl; lia |].
      intro k. rewrite Ho, own_push_at, filter_at_path_cons.
      rewrite (String.eqb_sym k (path c)).
      destruct (String.eqb_spec (path c) k) as [<- | Hne].
      * rewrite Hown. cbn [option_map]. now rewrite <- app_assoc.
      * reflexivity.
    + destruct (existsb (String.eqb (path c)) object_prototype_keys);
        [discriminate Ha |].
      injection Ha as <-.
      rewrite map_app in Hk. cbn [map fst] in Hk.
      split; [now rewrite Hk, <- app_assoc |].
      split; [rewrite Hl, grouped_app_new; simpl; lia |].
      intro k. rewrite Ho, own_app_new, filter_at_path_cons.
      rewrite (String.eqb_sym k (path c)).
      destruct (String.eqb_spec (path c) k) as [<- | Hne].
      * rewrite Hown. reflexivity.
      * destruct (own k o); reflexivity.
Qed.

Lemma first_seen_fresh (seen ps : list string) (p : string) :
  In p (first_seen seen ps) -> existsb (String.eqb p) seen = false.
Proof.
  revert seen. induction ps as [| q ps IH]; intros seen H; [destruct H |].
  cbn [first_seen] in H.
  destruct (existsb (String.eqb q) seen) eqn:Hq; [now apply IH |].
  destruct H as [<- | H]; [exact Hq |].
  specialize (IH _ H). rewrite existsb_app in IH.
  now apply orb_false_iff in IH.
Qed.

Lemma first_seen_nodup (seen ps : list string) : NoDup (first_seen seen ps).
Proof.
  revert seen. induction ps as [| q ps IH]; intro seen; [constructor |].
  cbn [first_seen].
  destruct (existsb (String.eqb q) seen); [apply IH |].
  constructor; [| apply IH].
  intro H. apply first_seen_fresh in H.
  rewrite existsb_app in H. apply orb_false_iff in H. destruct H as [_ H].
  simpl in H. now rewrite String.eqb_refl in H.
Qed.

Lemma own_in (k : string) (v : list ReviewComment) (o : ByFile) :
  NoDup (map fst o) -> In (k, v) o -> own k o = Some v.
Proof.
  induction o as [| [k0 v0] o IH]; simpl; [tauto |].
  intros N [E | H].
  - injection E as -> ->. now rewrite String.eqb_refl.
  - inversion N as [| ? ? Hn N']; subst.
    destruct (String.eqb_spec k k0) as [-> | _]; [| now apply IH].
    exfalso. apply Hn. apply in_map_iff. now exists (k0, v).
Qed.

Lemma filter_fst {B} (p : string -> bool) (o : list (string * B)) :
  map fst (filter (fun e => p (fst e)) o) = filter p (map fst o).
Proof.
  induction o as [| e o IH]; simpl; [reflexivity |].
  destruct (p (fst e)); simpl; now rewrite IH.
Qed.

Lemma insert_index_perm (e : string * list ReviewComment) (o : ByFile) :
  Permutation (insert_index e o) (e :: o).
Proof.
  induction o as [| e' t IH]; simpl; [apply Permutation_refl |].
  destruct (decimal (fst e) <? decimal (fst e')); [apply Permutation_refl |].
  eapply perm_trans; [apply perm_skip, IH | apply perm_swap].
Qed.

Lemma index_order_perm (l : ByFile) : Permutation (fold_right insert_index [] l) l.
Proof.
  induction l as [| e l IH]; simpl; [constructor |].
  eapply perm_trans; [apply insert_index_perm | now constructor].
Qed.

Lemma filter_partition_perm {A} (f : A -> bool) (l : list A) :
  Permutation (filter f l ++ filter (fun a => negb (f a)) l)%list l.
Proof.
  induction l as [| a l IH]; simpl; [constructor |].
  destruct (f a); simpl; [now constructor |].
  apply Permutation_sym, Permutation_cons_app. now apply Permutation_sym.
Qed.

(** The listing of the own properties is a rearrangement of them. *)
Lemma own_property_order_perm (o : ByFile) : Permutation (own_property_order o) o.
Proof.
  unfold own_property_order.
  eapply perm_trans; [apply Permutation_app_tail, index_order_perm |].
  apply filter_partition_perm.
Qed.

Lemma insert_index_sorted (e : string * list ReviewComment) (o : ByFile) :
  StronglySorted (fun a b => decimal a <= decimal b) (map fst o) ->
  StronglySorted (fun a b => decimal a <= decimal b) (map fst (insert_index e o)).
Proof.
  induction o as [| e' t IH]; intro H.
  - repeat constructor.
  - cbn [insert_index].
    cbn [map] in H. inversion H as [| x l Ht Hall]; subst.
    destruct (Z.ltb_spec (decimal (fst e)) (decimal (fst e'))) as [Hlt | Hge].
    + cbn [map]. constructor; [exact H |]. constructor; [lia |].
      eapply Forall_impl; [| exact Hall]. intros b Hb. cbv beta in Hb. lia.
    + cbn [map]. constructor; [apply IH, Ht |].
      eapply Permutation_Forall;
        [apply Permutation_map, Permutation_sym, insert_index_perm |].
      cbn [map]. constructor; [lia | exact Hall].
Qed.

Lemma index_order_sorted (l : ByFile) :
  StronglySorted (fun a b => decimal a <= decimal b)
                 (map fst (fold_right insert_index [] l)).
Proof.
  induction l as [| e l IH]; cbn [fold_right]; [constructor |].
  now apply insert_index_sorted.
Qed.

Lemma own_none_not_in (k : string) (o : ByFile) :
  own k o = None -> ~ In k (map fst o).
Proof.
  induction o as [| [k0 v0] o IH]; simpl; [tauto |].
  destruct (String.eqb_spec k k0) as [-> | Hne]; [discriminate |].
  intros H [E | Hin]; [congruence | now apply IH].
Qed.

Lemma own_some_in (k : string) (v : list ReviewComment) (o : ByFile) :
  own k o = Some v -> In (k, v) o.
Proof.
  induction o as [| [k0 v0] o IH]; simpl; [discriminate |].
  destruct (String.eqb_spec k k0) as [-> | Hne].
  - intro H. injection H as ->. now left.
  - intro H. right. now apply IH.
Qed.

Lemma own_not_in (k : string) (o : ByFile) :
  ~ In k (map fst o) -> own k o = None.
Proof.
  induction o as [| [k0 v0] o IH]; simpl; [reflexivity |].
  intro H. destruct (String.eqb_spec k k0) as [-> | Hne]; [tauto |].
  apply IH. tauto.
Qed.

(** Reading a property does not depend on the order of the listing. *)
Lemma own_perm (k : string) (o o' : ByFile) :
  NoDup (map fst o) -> Permutation o' o -> own k o' = own k o.
Proof.
  intros N P.
  assert (N' : NoDup (map fst o')).
  { eapply Permutation_NoDup; [apply Permutation_map, Permutation_sym, P | exact N]. }
  destruct (own k o) as [v |] eqn:E.
  - apply own_in; [exact N' |].
    eapply Permutation_in; [apply Permutation_sym, P | now apply own_some_in].
  - apply own_not_in. intro H. apply (own_none_not_in k o E).
    eapply Permutation_in; [apply Permutation_map, P | exact H].
Qed.

Lemma printed_keys {A} (g : A -> list json) (l : list (string * A)) :
  keys (stringify (JObj (map (fun e => (fst e, JArr (g (snd e)))) l)))
  = map fst l.
Proof.
  cbn [stringify keys].
  induction l as [| [k v] l IH]; [reflexivity |].
  cbn [map fst snd]. now rewrite IH.
Qed.

Lemma printed_field (k : string) (o : ByFile) :
  field k (stringify (JObj (map (fun e => (fst e, JArr (map review_comment_json (snd e)))) o)))
  = option_map (fun v => stringify (JArr (map review_comment_json v))) (own k o).
Proof.
  cbn [stringify field].
  induction o as [| [k0 v0] o IH]; [reflexivity |].
  cbn [map fst snd lookup own].
  destruct (String.eqb k k0); [reflexivity | exact IH].
Qed.

(** X7. When the grouping by file succeeds the printed [commentsByFile]
    has one property per distinct path.  The paths that read as array
    indices are listed first, in ascending numeric order, and the other
    paths follow in the order in which they first occur among the
    comments.  The property of a path holds exactly the comments on that
    path, in input order; a path without a comment has no property; and
    the buckets hold as many comments as the input. *)
Theorem grouped_by_file (cs : list ReviewComment) (o : ByFile) :
  commentsByFileOf cs = Ok o ->
  let printed := stringify (by_file_json o) in
  (exists idx,
      keys printed
      = (idx ++ filter (fun k => negb (is_array_index k)) (distinct_paths cs))%list /\
      Permutation idx (filter is_array_index (distinct_paths cs)) /\
      StronglySorted (fun a b => decimal a <= decimal b) idx) /\
  NoDup (keys printed) /\
  (forall k,
      field k printed
      = match filter (at_path k) cs with
        | [] => None
        | c :: l => Some (stringify (JArr (map review_comment_json (c :: l))))
        end) /\
  List.length (grouped o) = List.length cs.
Proof.
  intros H printed. destruct (group_from_buckets cs [] o H) as [Hk [Hl Ho]].
  cbn [map app own grouped] in Hk, Hl, Ho.
  assert (N : NoDup (map fst o)) by (rewrite Hk; apply first_seen_nodup).
  assert (K : keys printed = map fst (own_property_order o))
    by (apply printed_keys).
  split; [| split; [| split; [| exact Hl]]].
  - exists (map fst (fold_right insert_index []
                       (filter (fun e => is_array_index (fst e)) o))).
    split; [| split].
    + rewrite K. unfold own_property_order. rewrite map_app. f_equal.
      unfold distinct_paths. rewrite <- Hk.
      apply (filter_fst (fun k => negb (is_array_index k))).
    + unfold distinct_paths. rewrite <- Hk, <- (filter_fst is_array_index).
      apply Permutation_map, index_order_perm.
    + apply index_order_sorted.
  - rewrite K.
    eapply Permutation_NoDup;
      [apply Permutation_map, Permutation_sym, own_property_order_perm | exact N].
  - intro k. unfold printed, by_file_json. rewrite printed_field.
    rewrite (own_perm k o _ N (own_property_order_perm o)), Ho.
    destruct (filter (at_path k) cs); reflexivity.
Qed.

Lemma grouped_by_file_witness :
  keys (stringify (by_file_json [("src/b.ts", [comment_on 1 "src/b.ts"; comment_on 4 "src/b.ts"]);
                                 ("10", [comment_on 2 "10"]);
                                 ("2", [comment_on 3 "2"])]))
  = ["2"; "10"; "src/b.ts"] /\
  exists idx,
    keys (stringify (by_file_json [("src/b.ts", [comment_on 1 "src/b.ts"; comment_on 4 "src/b.ts"]);
                                   ("10", [comment_on 2 "10"]);
                                   ("2", [comment_on 3 "2"])]))
    = (idx ++ ["src/b.ts"])%list /\
    Permutation idx ["10"; "2"] /\
    StronglySorted (fun a b => decimal a <= decimal b) idx.
Proof.
  split; [reflexivity |].
  exact (proj1 (grouped_by_file mixed_paths
                  [("src/b.ts", [comment_on 1 "src/b.ts"; comment_on 4 "src/b.ts"]);
                   ("10", [comment_on 2 "10"]);
                   ("2", [comment_on 3 "2"])] eq_refl)).
Defined.

End GroupByFile.

Section InheritedNames.
Import CommentsTool Spec Props.

Lemma group_from_throws (cs : list ReviewComment) (o : ByFile) :
  (forall k, In k (map fst o) -> inherited k = false) ->
  ((exists e, group_from o cs = Throw e) <->
   (exists c, In c cs /\ inherited (path c) = true)).
Proof.
  revert o. induction cs as [| c cs IH]; intros o Hkeys.
  - simpl. split; [intros [e H]; discriminate H | intros [c [[] _]]].
  - cbn [group_from]. unfold add_comment.
    destruct (own (path c) o) as [v |] eqn:Hown.
    + assert (Hc : inherited (path c) = false).
      { apply Hkeys. pose proof (own_keys (path c) o) as K. rewrite Hown in K.
        apply existsb_exists in K. destruct K as [k [Hin Hk]].
        apply String.eqb_eq in Hk. now subst k. }
      rewrite (IH (push_at (path c) c o)).
      * split; intros [c' [Hin Hi]].
        -- exists c'. split; [now right | exact Hi].
        -- destruct Hin as [<- | Hin]; [congruence | now exists c'].
      * intros k Hk. rewrite keys_push_at in Hk. now apply Hkeys.
    + fold (inherited (path c)).
      destruct (inherited (path c)) eqn:Hc.
      * split; [intros _; exists c; split; [now left | exact Hc] |].
        intros _. eexists. reflexivity.
      * rewrite (IH (o ++ [(path c, [c])])%list).
        -- split; intros [c' [Hin Hi]].
           ++ exists c'. split; [now right | exact Hi].
           ++ destruct Hin as [<- | Hin]; [congruence | now exists c'].
        -- intros k Hk. rewrite map_app in Hk. apply in_app_or in Hk.
           destruct Hk as [Hk | [<- | []]]; [now apply Hkeys | exact Hc].
Qed.

Lemma group_from_error (cs : list ReviewComment) (o : ByFile) (e : exn) :
  group_from o cs = Throw e -> e = JsError push_not_a_function.
Proof.
  revert o. induction cs as [| c cs IH]; intros o H; [discriminate H |].
  cbn [group_from] in H. unfold add_comment in H.
  destruct (own (path c) o); [now apply IH in H |].
  destruct (existsb (String.eqb (path c)) object_prototype_keys);
    [now injection H as <- | now apply IH in H].
Qed.

(** X8. The grouping by file fails exactly when some comment is on a path
    whose name every object inherits ([constructor], [toString],
    [__proto__], ...): the lookup finds the inherited value instead of a
    bucket and [push] throws a [TypeError].  The comment tool then returns
    a structured error in place of all comments, also when every call to
    [gh] succeeded. *)
Theorem inherited_path_breaks_grouping :
  (forall cs : list ReviewComment,
      (exists e, commentsByFileOf cs = Throw e) <->
      (exists c, In c cs /\ inherited (path c) = true)) /\
  (forall w pr repoArg parsed ctx rc ic rv c,
      parsePrReference pr repoArg = Ok parsed ->
      resolved_context parsed w = Some ctx ->
      api_review_comments w ctx (number parsed) = Ok rc ->
      api_issue_comments w ctx (number parsed) = Ok ic ->
      api_reviews w ctx (number parsed) = Ok rv ->
      In c rc -> inherited (rc_path c) = true ->
      exists j,
        fst (run (execute pr repoArg) w) = Ok j /\
        is_error_object j = true /\
        field "reviewComments" j = None).
Proof.
  assert (A : forall cs : list ReviewComment,
             (exists e, commentsByFileOf cs = Throw e) <->
             (exists c, In c cs /\ inherited (path c) = true)).
  { intro cs. apply group_from_throws. intros k []. }
  split; [exact A |].
  intros w pr repoArg parsed ctx rc ic rv c Hp Hc Hrc Hic Hrv Hin Hinh.
  destruct (proj2 (A (map toReviewComment rc))) as [e He].
  { exists (toReviewComment c). split; [now apply in_map | exact Hinh]. }
  pose proof (group_from_error _ _ _ He) as ->.
  unfold run, execute, Gh.bind at 1, lift. rewrite Hp.
  unfold Gh.bind at 1. rewrite comments_context_run, Hc. simpl app.
  unfold try_catch, Gh.bind, invoke, lift, ret.
  rewrite Hrc, Hic, Hrv, He.
  eexists. split; [reflexivity |]. split; reflexivity.
Qed.

Lemma inherited_path_breaks_grouping_witness :
  exists e,
    commentsByFileOf
      [toReviewComment
         (mkRawReviewComment 1 "constructor" None None "RIGHT" "" "octocat"
            "" "" None "" "")]
    = Throw e.
Proof.
  apply (proj1 inherited_path_breaks_grouping).
  eexists. split; [left; reflexivity | reflexivity].
Defined.

End InheritedNames.

(* ================================================================== *)
(** * Which comments the threads hold *)

Section ThreadMembership.
Import CommentsTool Spec Props.

Lemma in_threads (cs : list ReviewComment) (t : Thread) :
  delivered cs ->
  (In t (threadsOf cs) <->
   exists p, In p cs /\ is_root p = true /\
             t = mkThread p (filter (is_reply_to p) cs)).
Proof.
  intro D. unfold threadsOf. rewrite in_map_iff. split.
  - intros [p [<- Hp]]. apply filter_In in Hp. destruct Hp as [Hin Htop].
    exists p. rewrite <- (delivered_top_level cs p D Hin). now repeat split.
  - intros [p [Hin [Hroot ->]]]. exists p. split; [reflexivity |].
    apply filter_In. split; [exact Hin |].
    now rewrite (delivered_top_level cs p D Hin).
Qed.

Lemma same_id_same_comment (cs : list ReviewComment) (p q : ReviewComment) :
  NoDup (map id cs) -> In p cs -> In q cs -> id p = id q -> p = q.
Proof.
  induction cs as [| c cs IH]; simpl; [tauto |].
  intros N Hp Hq E. inversion N as [| ? ? Hn N']; subst.
  destruct Hp as [-> | Hp], Hq as [-> | Hq].
  - reflexivity.
  - exfalso. apply Hn. rewrite E. now apply in_map.
  - exfalso. apply Hn. rewrite <- E. now apply in_map.
  - now apply IH.
Qed.

(** X9. A comment is among the replies of some thread exactly when it
    answers a comment of the input that is itself a thread root.  A reply
    to a reply, whose target is in the input but is no root, is therefore
    in no thread and is no root either: it is dropped from the thread
    view.  No root is a reply, and when the comment ids are distinct a
    comment is a reply in at most one thread. *)
Theorem thread_membership (cs : list ReviewComment) :
  delivered cs ->
  (forall c,
      (exists t, In t (threadsOf cs) /\ In c (replies t)) <->
      (In c cs /\
       exists p, In p cs /\ is_root p = true /\ inReplyToId c = Some (id p))) /\
  (forall c k,
      In c cs -> inReplyToId c = Some k ->
      (forall p, In p cs -> id p = k -> is_root p = false) ->
      forall t, In t (threadsOf cs) -> ~ In c (replies t) /\ parent t <> c) /\
  (forall t c, In t (threadsOf cs) -> In c (replies t) -> is_root c = false) /\
  (NoDup (map id cs) ->
   forall c t1 t2,
     In t1 (threadsOf cs) -> In t2 (threadsOf cs) ->
     In c (replies t1) -> In c (replies t2) -> t1 = t2).
Proof.
  intro D.
  assert (R : forall p c, In c (filter (is_reply_to p) cs) <->
                          In c cs /\ inReplyToId c = Some (id p)).
  { intros p c. rewrite filter_In. unfold is_reply_to.
    destruct (inReplyToId c) as [k |]; [| split; intros [_ H]; discriminate H].
    rewrite Z.eqb_eq. split; intros [H1 H2]; (split; [exact H1 | congruence]). }
  split; [| split; [| split]].
  - intro c. split.
    + intros [t [Ht Hc]]. apply (in_threads cs t D) in Ht.
      destruct Ht as [p [Hp [Hroot ->]]]. cbn [replies] in Hc.
      apply R in Hc. destruct Hc as [Hc Hk].
      split; [exact Hc |]. now exists p.
    + intros [Hc [p [Hp [Hroot Hk]]]].
      exists (mkThread p (filter (is_reply_to p) cs)). split.
      * apply (in_threads cs _ D). now exists p.
      * cbn [replies]. apply R. now split.
  - intros c k Hc Hk Hnone t Ht. apply (in_threads cs t D) in Ht.
    destruct Ht as [p [Hp [Hroot ->]]]. cbn [replies parent]. split.
    + intro Hin. apply R in Hin. destruct Hin as [_ E].
      rewrite Hk in E. injection E as ->.
      rewrite (Hnone p Hp eq_refl) in Hroot. discriminate Hroot.
    + intros ->. unfold is_root in Hroot. rewrite Hk in Hroot. discriminate Hroot.
  - intros t c Ht Hc. apply (in_threads cs t D) in Ht.
    destruct Ht as [p [Hp [Hroot ->]]]. cbn [replies] in Hc.
    apply R in Hc. destruct Hc as [_ E]. unfold is_root. now rewrite E.
  - intros N c t1 t2 H1 H2 Hc1 Hc2.
    apply (in_threads cs t1 D) in H1. apply (in_threads cs t2 D) in H2.
    destruct H1 as [p1 [Hp1 [_ ->]]]. destruct H2 as [p2 [Hp2 [_ ->]]].
    cbn [replies] in Hc1, Hc2. apply R in Hc1, Hc2.
    destruct Hc1 as [_ E1]. destruct Hc2 as [_ E2].
    rewrite E1 in E2. injection E2 as E.
    now rewrite (same_id_same_comment cs p1 p2 N Hp1 Hp2 E).
Qed.

Lemma thread_membership_witness :
  delivered nested_comments /\
  forall t, In t (threadsOf nested_comments) ->
            ~ In (toReviewComment (raw_comment 3 (Some 2))) (replies t)
            /\ parent t <> toReviewComment (raw_comment 3 (Some 2)).
Proof.
  assert (D : delivered nested_comments) by (eexists; reflexivity).
  split; [exact D |].
  apply (proj1 (proj2 (thread_membership nested_comments D))
           (toReviewComment (raw_comment 3 (Some 2))) 2).
  - simpl. tauto.
  - reflexivity.
  - intros p Hp E. simpl in Hp.
    destruct Hp as [<- | [<- | [<- | []]]]; simpl in E; try lia; reflexivity.
Defined.

End ThreadMembership.

(* ================================================================== *)
(** * What crosses the tool boundary *)

Section Exceptions.
Import Spec Props.

(** X10. The only exception that leaves a tool is the one of the reference
    parse: each tool throws exactly when [parsePrReference] throws, with
    that very exception and before any invocation of [gh]; in every other
    case it returns a value. *)
Theorem exception_only_from_reference (w : World) :
  (forall pr repoArg e,
      fst (run (SnapshotTool.execute pr repoArg) w) = Throw e <->
      parsePrReference pr repoArg = Throw e) /\
  (forall pr repoArg e,
      fst (run (CommentsTool.execute pr repoArg) w) = Throw e <->
      parsePrReference pr repoArg = Throw e) /\
  (forall args e,
      fst (run (ReviewTool.execute args) w) = Throw e <->
      parsePrReference (ReviewTool.a_pr args) (ReviewTool.a_repo args) = Throw e) /\
  (forall pr repoArg e,
      parsePrReference pr repoArg = Throw e ->
      snd (run (SnapshotTool.execute pr repoArg) w) = [] /\
      snd (run (CommentsTool.execute pr repoArg) w) = [] /\
      forall body event comments dryRun,
        snd (run (ReviewTool.execute
                    (ReviewTool.mkArgs pr repoArg body event comments dryRun)) w)
        = []).
Proof.
  split; [| split; [| split]].
  - intros pr repoArg e.
    destruct (parsePrReference pr repoArg) as [parsed | e0] eqn:Hp.
    + destruct (snapshot_returns w pr repoArg parsed Hp) as [j [Hj _]].
      rewrite Hj. split; discriminate.
    + rewrite (snapshot_throws w pr repoArg e0 Hp). simpl fst.
      split; intro H; injection H as ->; reflexivity.
  - intros pr repoArg e.
    destruct (parsePrReference pr repoArg) as [parsed | e0] eqn:Hp.
    + destruct (comments_returns w pr repoArg parsed Hp) as [j [Hj _]].
      rewrite Hj. split; discriminate.
    + rewrite (comments_throws w pr repoArg e0 Hp). simpl fst.
      split; intro H; injection H as ->; reflexivity.
  - intros args e.
    destruct (parsePrReference (ReviewTool.a_pr args) (ReviewTool.a_repo args))
      as [parsed | e0] eqn:Hp.
    + destruct (review_returns w args parsed Hp) as [j [Hj _]].
      rewrite Hj. split; discriminate.
    + rewrite (review_execute_throw w args e0 Hp). simpl fst.
      split; intro H; injection H as ->; reflexivity.
  - intros pr repoArg e Hp.
    rewrite (snapshot_throws w pr repoArg e Hp).
    rewrite (comments_throws w pr repoArg e Hp).
    split; [reflexivity | split; [reflexivity |]].
    intros body event comments dryRun.
    now rewrite (review_execute_throw w
                   (ReviewTool.mkArgs pr repoArg body event comments dryRun) e Hp).
Qed.

Lemma exception_only_from_reference_witness :
  snd (run (SnapshotTool.execute "none" None) example_world) = [] /\
  snd (run (CommentsTool.execute "none" None) example_world) = [].
Proof.
  destruct (proj2 (proj2 (proj2 (exception_only_from_reference example_world)))
              "none" None (JsError (invalid_message "none")) eq_refl)
    as [H1 [H2 _]].
  split; assumption.
Defined.

End Exceptions.

Section PostDiscipline.
Import ReviewTool Spec Props.




End PostDiscipline.

(* ================================================================== *)
(** * The snapshot tool on success *)

Section SnapshotSuccess.
Import SnapshotTool Spec Props.

(** X12. When its four calls succeed the snapshot tool has invoked [gh]
    exactly four times, for the metadata, the diff, the files and the
    commits in this order, each time with the parsed number and the same
    repository flag: [-R owner/repo] when the reference names a repository
    and nothing when it leaves it open.  It returns the snapshot built
    from the four answers. *)
Theorem snapshot_success (w : World) (pr : string) (repoArg : option string)
    (parsed : PrReference) (md : Metadata) (d : string)
    (fs : list FileChange) (cs : list Commit) :
  parsePrReference pr repoArg = Ok parsed ->
  pr_view_metadata w (number parsed) (repoFlag parsed) = Ok md ->
  pr_diff w (number parsed) (repoFlag parsed) = Ok d ->
  pr_view_files w (number parsed) (repoFlag parsed) = Ok fs ->
  pr_view_commits w (number parsed) (repoFlag parsed) = Ok cs ->
  run (execute pr repoArg) w
  = (Ok (stringify (output md d fs cs)),
     [PrViewMetadata (number parsed) (repoFlag parsed);
      PrDiff (number parsed) (repoFlag parsed);
      PrViewFiles (number parsed) (repoFlag parsed);
      PrViewCommits (number parsed) (repoFlag parsed)]) /\
  ((repository_known parsed /\
    repoFlag parsed = "-R " ++ owner parsed ++ "/" ++ repo parsed) \/
   (repository_left_open parsed /\ repoFlag parsed = "")).
Proof.
  intros Hp Hm Hd Hf Hc. split.
  - unfold run, execute, Gh.bind at 1, lift. rewrite Hp.
    unfold try_catch, Gh.bind, invoke, ret.
    now rewrite Hm, Hd, Hf, Hc.
  - destruct (owner_repo_cases pr repoArg parsed Hp) as [K | L].
    + left. split; [exact K |]. destruct K as [[Ho _] [Hr _]].
      unfold repoFlag.
      apply truthy_nonempty in Ho, Hr. now rewrite Ho, Hr.
    + right. split; [exact L |]. destruct L as [Ho _].
      unfold repoFlag. now rewrite Ho.
Qed.

Lemma snapshot_success_witness :
  run (execute "https://github.com/octo/cat/pull/7" None) example_world
  = (Ok (stringify (output example_metadata "diff --git a/x b/x"
                      [mkFile "x" 60 41] [mkCommit "first" ""])),
     [PrViewMetadata (Int 7) "-R octo/cat"; PrDiff (Int 7) "-R octo/cat";
      PrViewFiles (Int 7) "-R octo/cat"; PrViewCommits (Int 7) "-R octo/cat"]).
Proof.
  exact (proj1 (snapshot_success example_world "https://github.com/octo/cat/pull/7"
                  None (mkRef "octo" "cat" (Int 7)) example_metadata
                  "diff --git a/x b/x" [mkFile "x" 60 41] [mkCommit "first" ""]
                  eq_refl eq_refl eq_refl eq_refl eq_refl)).
Defined.

End SnapshotSuccess.

(* ================================================================== *)
(** * Optional fields of the review payload *)

Section NoNull.
Import ReviewTool Spec Props.

Lemma payload_comment_clean (c : InlineComment) :
  stringify (payload_comment c) = payload_comment c /\
  payload_comment c <> JUndef /\
  no_null (payload_comment c) = true.
Proof.
  destruct c as [p l [sd |] [sl |] [ss |] b]; unfold payload_comment; cbn;
    try (unfold truthy_num; destruct (sl =? 0)); cbn;
    repeat split; discriminate.
Qed.

Lemma payload_comments_clean (comments : list InlineComment) :
  stringify (JArr (map payload_comment comments)) = JArr (map payload_comment comments) /\
  no_null (JArr (map payload_comment comments)) = true.
Proof.
  split.
  - apply stringify_items. intro c.
    destruct (payload_comment_clean c) as [H1 [H2 _]]. now split.
  - induction comments as [| c comments IH]; [reflexivity |].
    cbn [map no_null]. cbn [map no_null] in IH.
    destruct (payload_comment_clean c) as [_ [_ ->]]. exact IH.
Qed.

(** X13. What the review tool posts never holds a [null] or an [undefined],
    at any depth: an inline comment without a side, a start line or a
    start side has no such property at all, and printing the payload drops
    nothing from it. *)
Theorem payload_omits_unset_fields (commitId body : string) (event : Event)
    (comments : list InlineComment) :
  stringify (reviewPayload commitId body event comments)
  = reviewPayload commitId body event comments /\
  no_null (stringify (reviewPayload commitId body event comments)) = true /\
  (forall c : InlineComment,
     has_field "side" (payload_comment c)
     = match side c with Some _ => true | None => false end /\
     has_field "start_side" (payload_comment c)
     = match startSide c with Some _ => true | None => false end /\
     has_field "start_line" (payload_comment c)
     = match startLine c with Some z => negb (z =? 0) | None => false end).
Proof.
  assert (S : stringify (reviewPayload commitId body event comments)
              = reviewPayload commitId body event comments).
  { unfold reviewPayload. destruct comments as [| c comments]; [reflexivity |].
    destruct (payload_comments_clean (c :: comments)) as [E _].
    cbn [List.length Nat.ltb Nat.leb app].
    change (stringify
              (JObj [("commit_id", JStr commitId); ("body", JStr body);
                     ("event", JStr (event_string event));
                     ("comments", JArr (map payload_comment (c :: comments)))]))
      with (JObj [("commit_id", JStr commitId); ("body", JStr body);
                  ("event", JStr (event_string event));
                  ("comments", stringify (JArr (map payload_comment (c :: comments))))]).
    now rewrite E. }
  split; [exact S |]. split.
  - rewrite S. unfold reviewPayload.
    destruct comments as [| c comments]; [reflexivity |].
    destruct (payload_comments_clean (c :: comments)) as [_ N].
    cbn [List.length Nat.ltb Nat.leb app].
    change (no_null
              (JObj [("commit_id", JStr commitId); ("body", JStr body);
                     ("event", JStr (event_string event));
                     ("comments", JArr (map payload_comment (c :: comments)))]))
      with (no_null (JArr (map payload_comment (c :: comments))) && true).
    now rewrite N.
  - intro c.
    destruct c as [p l [sd |] [sl |] [ss |] b]; unfold payload_comment; cbn;
      try (unfold truthy_num; destruct (sl =? 0)); cbn; repeat split.
Qed.

End NoNull.

(* ================================================================== *)
(** * The statistics of the comment tool *)

Section Statistics.
Import CommentsTool Spec Props.

Lemma stringify_fields_length (l : list (string * json)) :
  (forall kv, In kv l -> snd kv <> JUndef) ->
  match stringify (JObj l) with
  | JObj l' => List.length l' = List.length l
  | _ => False
  end.
Proof.
  induction l as [| [k v] l IH]; intro H; [reflexivity |].
  assert (Hv : v <> JUndef) by (apply (H (k, v)); now left).
  assert (Hl : forall kv, In kv l -> snd kv <> JUndef)
    by (intros kv Hin; apply H; now right).
  specialize (IH Hl). cbn in IH. cbn.
  destruct v; try congruence; cbn; now rewrite IH.
Qed.

Lemma insert_index_length (e : string * list ReviewComment) (o : ByFile) :
  List.length (insert_index e o) = S (List.length o).
Proof.
  induction o as [| e' o IH]; simpl; [reflexivity |].
  destruct (decimal (fst e) <? decimal (fst e')); simpl; [reflexivity | now rewrite IH].
Qed.

Lemma filter_split_length {A} (f : A -> bool) (l : list A) :
  (List.length (filter f l) + List.length (filter (fun a => negb (f a)) l))%nat
  = List.length l.
Proof.
  induction l as [| a l IH]; simpl; [reflexivity |].
  destruct (f a); simpl; lia.
Qed.

(** The listing of the own properties loses and adds none. *)
Lemma own_property_order_length (o : ByFile) :
  List.length (own_property_order o) = List.length o.
Proof.
  unfold own_property_order. rewrite length_app.
  rewrite <- (filter_split_length (fun e => is_array_index (fst e)) o).
  f_equal. induction (filter (fun e => is_array_index (fst e)) o) as [| e l IH];
    simpl; [reflexivity |].
  now rewrite insert_index_length, IH.
Qed.

Lemma filter_map_length {A B} (f : B -> bool) (g : A -> B) (l : list A) :
  List.length (filter f (map g l)) = List.length (filter (fun a => f (g a)) l).
Proof.
  induction l as [| a l IH]; simpl; [reflexivity |].
  destruct (f (g a)); simpl; now rewrite IH.
Qed.

(** X14. In a successful answer of the comment tool the statistics agree
    with the lists beside them: [totalReviewComments], [totalIssueComments]
    and [unresolvedThreads] are the lengths of [reviewComments],
    [issueComments] and [threads], which are the numbers of raw review
    comments, of raw issue comments and of comments without a reply
    target; [filesWithComments] is the number of properties of
    [commentsByFile], the number of distinct paths; [botComments] counts
    the review and issue comments whose author login is classified as a
    bot. *)
Theorem statistics_match_lists (w : World) (pr : string) (repoArg : option string)
    (parsed : PrReference) (ctx : string) (rc : list RawReviewComment)
    (ic : list RawIssueComment) (rv : list RawReview) (byFile : ByFile) :
  parsePrReference pr repoArg = Ok parsed ->
  resolved_context parsed w = Some ctx ->
  api_review_comments w ctx (number parsed) = Ok rc ->
  api_issue_comments w ctx (number parsed) = Ok ic ->
  api_reviews w ctx (number parsed) = Ok rv ->
  commentsByFileOf (map toReviewComment rc) = Ok byFile ->
  exists out stats rcs ics ths files,
    fst (run (execute pr repoArg) w) = Ok out /\
    field "stats" out = Some stats /\
    field "reviewComments" out = Some rcs /\
    field "totalReviewComments" stats = Some (JNum (size rcs)) /\
    size rcs = count rc /\
    field "issueComments" out = Some ics /\
    field "totalIssueComments" stats = Some (JNum (size ics)) /\
    size ics = count ic /\
    field "threads" out = Some ths /\
    field "unresolvedThreads" stats = Some (JNum (size ths)) /\
    size ths = count (filter is_root (map toReviewComment rc)) /\
    field "commentsByFile" out = Some files /\
    field "filesWithComments" stats = Some (JNum (size files)) /\
    size files = count (distinct_paths (map toReviewComment rc)) /\
    field "botComments" stats
    = Some (JNum (count (filter (fun c => isLikelyBot (rc_user_login c)) rc)
                  + count (filter (fun c => isLikelyBot (ic_user_login c)) ic))).
Proof.
  intros Hp Hc Hrc Hic Hrv Hbf.
  rewrite (comments_execute_success w pr repoArg parsed ctx rc ic rv byFile
             Hp Hc Hrc Hic Hrv Hbf).
  set (cs := map toReviewComment rc).
  assert (D : delivered cs) by (now exists rc).
  assert (Hth : List.length (threadsOf cs) = List.length (filter is_root cs)).
  { rewrite <- (threads_parents cs D). now rewrite length_map. }
  destruct (group_from_buckets cs [] byFile Hbf) as [Hk _].
  cbn [map app] in Hk.
  assert (Hfiles : match stringify (by_file_json byFile) with
                   | JObj l' => List.length l' = List.length (distinct_paths cs)
                   | _ => False
                   end).
  { unfold by_file_json.
    pose proof (stringify_fields_length
                  (map (fun e => (fst e, JArr (map review_comment_json (snd e))))
                       (own_property_order byFile))) as L.
    destruct (stringify (JObj _)) as [| | | | | |l'] eqn:E;
      try (apply L; intros kv Hin; apply in_map_iff in Hin;
           destruct Hin as [e [<- _]]; discriminate).
    rewrite L.
    - rewrite length_map, own_property_order_length.
      unfold distinct_paths. fold cs. rewrite <- Hk. now rewrite length_map.
    - intros kv Hin. apply in_map_iff in Hin.
      destruct Hin as [e [<- _]]. discriminate. }
  destruct (stringify (by_file_json byFile)) as [| | | | | |files] eqn:Ef;
    try contradiction.
  exists (stringify (output cs (map toIssueComment ic) (reviewsOf rv) byFile
                       (threadsOf cs))).
  eexists. eexists. eexists. eexists. exists (JObj files).
  split; [reflexivity |].
  split; [reflexivity |].
  split; [reflexivity |].
  split; [cbn; unfold count; now rewrite !length_map |].
  split; [cbn; unfold count, cs; now rewrite !length_map |].
  split; [reflexivity |].
  split; [cbn; unfold count; now rewrite !length_map |].
  split; [cbn; unfold count; now rewrite !length_map |].
  split; [reflexivity |].
  split; [cbn; unfold count; now rewrite !length_map |].
  split; [cbn; unfold count; now rewrite !length_map, Hth |].
  split.
  { change (field "commentsByFile"
              (stringify (output cs (map toIssueComment ic) (reviewsOf rv) byFile
                            (threadsOf cs))))
      with (Some (stringify (by_file_json byFile))).
    now rewrite Ef. }
  split.
  { cbn. unfold count. rewrite Hfiles. unfold distinct_paths.
    rewrite <- Hk, length_map. reflexivity. }
  split; [cbn [size]; unfold count; now rewrite Hfiles |].
  change (Some (JNum (count (filter isBot cs)
                      + count (filter i_isBot (map toIssueComment ic))))
          = Some (JNum (count (filter (fun c => isLikelyBot (rc_user_login c)) rc)
                        + count (filter (fun c => isLikelyBot (ic_user_login c)) ic)))).
  unfold count, cs. rewrite !filter_map_length. reflexivity.
Qed.

Lemma statistics_match_lists_witness :
  exists out stats,
    fst (run (execute "7" (Some "octo/cat")) example_world) = Ok out /\
    field "stats" out = Some stats /\
    field "filesWithComments" stats = Some (JNum 1) /\
    field "unresolvedThreads" stats = Some (JNum 1).
Proof.
  destruct (statistics_match_lists example_world "7" (Some "octo/cat")
              (mkRef "octo" "cat" (Int 7)) "octo/cat"
              [rawA; rawB; rawC; rawD] [] example_reviews
              [("src/a.ts", example_comments)]
              eq_refl eq_refl eq_refl eq_refl eq_refl eq_refl)
    as [out [stats [rcs [ics [ths [files [H1 [H2 [_ [_ [_ [_ [_ [_ [_ [Hu [Hus [_ [Hf [Hfs _]]]]]]]]]]]]]]]]]]]].
  exists out, stats. rewrite Hf, Hfs, Hu, Hus.
  repeat split; assumption.
Defined.

End Statistics.

(* ================================================================== *)
(** * The permalink of the dry run *)

Section Permalink.
Import ReviewTool Spec Props.

Lemma append_assoc (a b c : string) : (a ++ b) ++ c = a ++ b ++ c.
Proof. induction a as [| x a IH]; simpl; [reflexivity | now rewrite IH]. Qed.

Lemma decimal_from_uint_acc (u : Decimal.uint) (acc : positive) :
  decimal_from (Z.pos acc) (NilEmpty.string_of_uint u)
  = Z.pos (Pos.of_uint_acc u acc).
Proof.
  revert acc. induction u as [| u IH | u IH | u IH | u IH | u IH | u IH
                              | u IH | u IH | u IH | u IH]; intro acc;
    [reflexivity | ..];
    cbn [NilEmpty.string_of_uint decimal_from Pos.of_uint_acc];
    rewrite <- IH; f_equal; vm_compute digit_val; lia.
Qed.

Lemma decimal_uint (u : Decimal.uint) :
  decimal (NilEmpty.string_of_uint u) = Z.of_N (Pos.of_uint u).
Proof.
  unfold decimal.
  induction u as [| u IH | u IH | u IH | u IH | u IH | u IH
                  | u IH | u IH | u IH | u IH];
    [reflexivity | exact IH | ..];
    cbn [NilEmpty.string_of_uint decimal_from Pos.of_uint];
    apply decimal_from_uint_acc.
Qed.

Lemma uint_digits (u : Decimal.uint) :
  all_chars is_digit (NilEmpty.string_of_uint u) = true.
Proof. induction u; simpl; [reflexivity | assumption ..]. Qed.

(** Printing a number that is not negative and reading it back. *)
Lemma string_of_Z_decimal (z : Z) :
  0 <= z -> digits (string_of_Z z) /\ decimal (string_of_Z z) = z.
Proof.
  intro Hz. destruct z as [| p | p]; [split; [split; [discriminate | reflexivity] | reflexivity] | | lia].
  unfold string_of_Z. cbn [Z.to_int NilZero.string_of_int].
  pose proof (DecimalPos.Unsigned.to_uint_nonnil p) as Hn.
  pose proof (DecimalPos.Unsigned.of_to p) as Hof.
  destruct (Pos.to_uint p) as [| u | u | u | u | u | u | u | u | u | u] eqn:E;
    [congruence | ..];
    cbn [NilZero.string_of_uint];
    (split; [split; [discriminate | apply uint_digits] |]);
    rewrite decimal_uint, Hof; reflexivity.
Qed.

Lemma number_to_string_safe (z : Z) :
  0 <= z < 2 ^ 53 -> number_to_string z = string_of_Z z.
Proof.
  intros [H0 H1]. unfold number_to_string, shortest_decimal.
  rewrite (Z.abs_eq z H0).
  destruct (Z.ltb_spec z 0) as [Hn | _]; [lia |].
  destruct (Z.ltb_spec z (2 ^ 53)) as [_ | Hn]; [| lia].
  destruct (Z.ltb_spec z (10 ^ 21)) as [_ | Hn]; [reflexivity |].
  assert (2 ^ 53 < 10 ^ 21) by reflexivity. lia.
Qed.

(** X15. The permalink the dry run prints for a repository [O/R] and a
    number from 0 up to 2^53, where the template literal prints every
    digit, resolves back to that very reference: owner O, repository R and
    the same number.  From 10^21 the template literal prints the number
    with an exponent, and the link of 10^21 ends in [1e+21] and resolves
    to pull request 1. *)
Theorem permalink_resolves (O R : string) (z : Z) (repoArg : option string) :
  segment O -> segment R -> 0 <= z < 2 ^ 53 ->
  parsePrReference (prUrl (O ++ "/" ++ R) (Int z)) repoArg = Ok (mkRef O R (Int z)) /\
  prUrl "octo/cat" (Int (10 ^ 21)) = "https://github.com/octo/cat/pull/1e+21" /\
  parsePrReference (prUrl "octo/cat" (Int (10 ^ 21))) repoArg
  = Ok (mkRef "octo" "cat" (Int 1)).
Proof.
  intros HO HR Hz.
  split; [| split; [vm_compute; reflexivity | destruct repoArg; vm_compute; reflexivity]].
  assert (Hz0 : 0 <= z) by lia.
  destruct (string_of_Z_decimal z Hz0) as [Hd Hv].
  assert (E : prUrl (O ++ "/" ++ R) (Int z) = pr_url O R (string_of_Z z)).
  { unfold prUrl, pr_url. cbn [string_of_jsnum].
    rewrite (number_to_string_safe z Hz).
    change ("https://github.com/" ++ (O ++ "/" ++ R) ++ "/pull/" ++ string_of_Z z)
      with ("https://github.com/" ++ ((O ++ "/" ++ R) ++ "/pull/" ++ string_of_Z z)).
    f_equal. rewrite append_assoc. f_equal. }
  rewrite E.
  rewrite (parse_url_first _ repoArg O R _ (urlMatch_pr_url O R _ HO HR Hd)).
  destruct (parseInt_digits _ Hd) as [-> _]. rewrite Hv.
  now rewrite (to_double_small z) by lia.
Qed.

Lemma permalink_resolves_witness :
  parsePrReference (prUrl "octo/cat" (Int 7)) None = Ok (mkRef "octo" "cat" (Int 7)).
Proof.
  apply (permalink_resolves "octo" "cat" 7 None).
  - split; [discriminate | reflexivity].
  - split; [discriminate | reflexivity].
  - split; [lia | reflexivity].
Defined.

End Permalink.

(* ================================================================== *)
(** * The error handler of the submission *)

Section ApiError.
Import ReviewTool Spec Props.

Lemma before_last_none (s : string) :
  before_last_brace s = None <-> lacks "}" s = true.
Proof.
  unfold lacks. induction s as [| c s IH]; cbn [before_last_brace all_chars];
    [tauto |].
  destruct (before_last_brace s) as [i |].
  - split; [discriminate |]. intro H. apply andb_true_iff in H.
    destruct H as [_ H]. apply IH in H. discriminate H.
  - destruct (Ascii.eqb c "}"); cbn [negb andb].
    + split; discriminate.
    + split; [intros _; now apply IH | reflexivity].
Qed.

Lemma before_last_split (s inner : string) :
  before_last_brace s = Some inner ->
  exists post, s = inner ++ "}" ++ post /\ lacks "}" post = true.
Proof.
  revert inner. induction s as [| c s IH]; intros inner H;
    cbn [before_last_brace] in H; [discriminate H |].
  destruct (before_last_brace s) as [i |] eqn:E.
  - injection H as <-. destruct (IH i eq_refl) as [post [-> Hp]].
    now exists post.
  - destruct (Ascii.eqb_spec c "}") as [-> | _]; [| discriminate H].
    injection H as <-. exists s. split; [reflexivity |].
    now apply before_last_none.
Qed.

Lemma before_last_app (inner post : string) :
  lacks "}" post = true ->
  before_last_brace (inner ++ "}" ++ post) = Some inner.
Proof.
  intro Hp. apply before_last_none in Hp.
  induction inner as [| c inner IH].
  - cbn. now rewrite Hp.
  - change (String c inner ++ "}" ++ post) with (String c (inner ++ "}" ++ post)).
    cbn [before_last_brace]. now rewrite IH.
Qed.

Lemma hd_flat_map_close (l : list (string * string)) (c : ascii) :
  flat_map (fun '(inner, r2) => map (fun _ : string => "{" ++ inner ++ "}") (lit "}" r2))
           (map (extend c) l)
  = map (fun m => match m with
                  | String b rest => String b (String c rest)
                  | EmptyString => EmptyString
                  end)
        (flat_map (fun '(inner, r2) => map (fun _ : string => "{" ++ inner ++ "}") (lit "}" r2)) l).
Proof.
  induction l as [| [i r2] l IH]; [reflexivity |].
  cbn [map flat_map extend fst snd]. rewrite map_app, IH. f_equal.
  destruct (lit "}" r2) as [| x [| y t]] eqn:E; try reflexivity.
  destruct r2 as [| b r2]; [discriminate E |].
  cbn [lit] in E. destruct (Ascii.eqb "}" b); discriminate E.
Qed.

(** The alternatives after an opening brace: the first one closes at the
    last closing brace. *)
Lemma braces_after_open (r1 : string) :
  hd_error
    (flat_map (fun '(inner, r2) => map (fun _ : string => "{" ++ inner ++ "}") (lit "}" r2))
              (star any_char r1))
  = option_map (fun inner => "{" ++ inner ++ "}") (before_last_brace r1).
Proof.
  induction r1 as [| c r1 IH]; [reflexivity |].
  cbn [star any_char before_last_brace].
  rewrite flat_map_app, hd_flat_map_close.
  destruct (before_last_brace r1) as [i |].
  - cbn [option_map] in *.
    destruct (flat_map _ (star any_char r1)) as [| x t]; [discriminate IH |].
    injection IH as ->. reflexivity.
  - cbn [option_map] in IH.
    destruct (flat_map _ (star any_char r1)) as [| x t]; [| discriminate IH].
    cbn [map app flat_map lit].
    rewrite Ascii.eqb_sym. destruct (Ascii.eqb c "}"); reflexivity.
Qed.

Lemma bracesMatch_unfold (s : string) :
  bracesMatch s
  = match braces_at s with
    | m :: _ => Some m
    | [] => match s with String _ s' => bracesMatch s' | EmptyString => None end
    end.
Proof. destruct s; reflexivity. Qed.

Lemma braces_at_open (r1 : string) :
  hd_error (braces_at (String "{" r1))
  = option_map (fun inner => "{" ++ inner ++ "}") (before_last_brace r1).
Proof.
  unfold braces_at. cbn [lit Ascii.eqb Bool.eqb flat_map].
  rewrite app_nil_r. apply braces_after_open.
Qed.

Lemma braces_at_other (c : ascii) (s : string) :
  Ascii.eqb c "{" = false -> braces_at (String c s) = [].
Proof.
  intro H. unfold braces_at. cbn [lit].
  rewrite Ascii.eqb_sym in H. now rewrite H.
Qed.

Lemma bracesMatch_lacks (s : string) : lacks "}" s = true -> bracesMatch s = None.
Proof.
  unfold lacks. induction s as [| c s IH]; intro H; [reflexivity |].
  cbn [all_chars] in H. apply andb_true_iff in H. destruct H as [Hc Hs].
  rewrite bracesMatch_unfold.
  destruct (Ascii.eqb_spec c "{") as [-> | Hne].
  - pose proof (braces_at_open s) as B.
    assert (N : before_last_brace s = None) by (now apply before_last_none).
    rewrite N in B. cbn [option_map] in B.
    destruct (braces_at (String "{" s)); [now apply IH | discriminate B].
  - rewrite braces_at_other; [now apply IH |].
    now destruct (Ascii.eqb_spec c "{").
Qed.

(** The match of the regular expression: from the first opening brace to
    the last closing brace after it. *)
Lemma bracesMatch_span (s t : string) :
  bracesMatch s = Some t <->
  exists pre inner post,
    s = pre ++ "{" ++ inner ++ "}" ++ post /\
    lacks "{" pre = true /\ lacks "}" post = true /\
    t = "{" ++ inner ++ "}".
Proof.
  split.
  - revert t. induction s as [| c s IH]; intros t H; [discriminate H |].
    rewrite bracesMatch_unfold in H.
    destruct (Ascii.eqb_spec c "{") as [-> | Hne].
    + pose proof (braces_at_open s) as B.
      destruct (before_last_brace s) as [inner |] eqn:E.
      * cbn [option_map] in B.
        destruct (braces_at (String "{" s)) as [| m tl]; [discriminate B |].
        injection B as ->. injection H as <-.
        destruct (before_last_split s inner E) as [post [-> Hp]].
        exists "", inner, post. repeat split; assumption.
      * cbn [option_map] in B.
        destruct (braces_at (String "{" s)) as [| m tl]; [| discriminate B].
        apply before_last_none in E. rewrite (bracesMatch_lacks s E) in H.
        discriminate H.
    + rewrite braces_at_other in H by (now destruct (Ascii.eqb_spec c "{")).
      destruct (IH t H) as [pre [inner [post [-> [Hpre [Hpost ->]]]]]].
      exists (String c pre), inner, post. repeat split; try assumption.
      unfold lacks in *. cbn [all_chars]. rewrite Hpre.
      now destruct (Ascii.eqb_spec c "{").
  - intros [pre [inner [post [-> [Hpre [Hpost ->]]]]]].
    unfold lacks in Hpre. induction pre as [| c pre IH].
    + change ("" ++ "{" ++ inner ++ "}" ++ post)
        with (String "{" (inner ++ "}" ++ post)).
      rewrite bracesMatch_unfold.
      pose proof (braces_at_open (inner ++ "}" ++ post)) as B.
      rewrite (before_last_app inner post Hpost) in B. cbn [option_map] in B.
      destruct (braces_at _) as [| m tl]; [discriminate B |].
      now injection B as ->.
    + cbn [all_chars] in Hpre. apply andb_true_iff in Hpre.
      destruct Hpre as [Hc Hpre]. apply negb_true_iff in Hc.
      change (String c pre ++ "{" ++ inner ++ "}" ++ post)
        with (String c (pre ++ "{" ++ inner ++ "}" ++ post)).
      rewrite bracesMatch_unfold, (braces_at_other c _ Hc). now apply IH.
Qed.

End ApiError.

Section ApiErrorReport.
Import ReviewTool Spec Props.

(** X16. The error handler of the submission looks for the text from the
    first opening brace of the message to the last closing brace after it
    and hands exactly that text to [JSON.parse].  When it parses to an
    object the result is [Failed to submit review] with the [message] and
    the [errors] of that object, whatever else the message says; when it
    does not parse, or the message has no such text, the generic hints
    apply. *)
Theorem api_error_span (w : World) (pre inner post : string) :
  lacks "{" pre = true -> lacks "}" post = true ->
  let message := pre ++ "{" ++ inner ++ "}" ++ post in
  bracesMatch message = Some ("{" ++ inner ++ "}") /\
  (forall fields,
      json_parse w ("{" ++ inner ++ "}") = Some (JObj fields) ->
      on_error w (JsError message)
      = JObj [("error", JStr "Failed to submit review");
              ("message", match lookup "message" fields with Some v => v | None => JUndef end);
              ("errors", match lookup "errors" fields with Some v => v | None => JUndef end)]) /\
  (json_parse w ("{" ++ inner ++ "}") = None ->
   on_error w (JsError message) = generic_error message) /\
  (forall plain, lacks "}" plain = true ->
                 on_error w (JsError plain) = generic_error plain).
Proof.
  intros Hpre Hpost message.
  assert (B : bracesMatch message = Some ("{" ++ inner ++ "}")).
  { apply bracesMatch_span. exists pre, inner, post. repeat split; assumption. }
  split; [exact B |]. split; [| split].
  - intros fields Hj. unfold on_error, api_error_result.
    rewrite B, Hj. reflexivity.
  - intro Hj. unfold on_error, api_error_result. now rewrite B, Hj.
  - intros plain Hp. unfold on_error, api_error_result.
    now rewrite (bracesMatch_lacks plain Hp).
Qed.

Lemma api_error_span_witness :
  bracesMatch "gh: HTTP 422 {x} (https://api.github.com/y)" = Some "{x}" /\
  on_error example_world (JsError "gh: HTTP 422 {x} (https://api.github.com/y)")
  = generic_error "gh: HTTP 422 {x} (https://api.github.com/y)".
Proof.
  destruct (api_error_span example_world "gh: HTTP 422 " "x"
              " (https://api.github.com/y)" eq_refl eq_refl) as [B [_ [H _]]].
  split; [exact B | exact (H eq_refl)].
Defined.

End ApiErrorReport.

(* ================================================================== *)
(** * The hints of the error handlers *)

Section ErrorHints.
Import Spec Props.

Lemma prefix_app (p s : string) : String.prefix p (p ++ s) = true.
Proof.
  induction p as [| a p IH]; simpl; [now destruct s |].
  destruct (ascii_dec a a); [exact IH | congruence].
Qed.

(** [includes] finds a text wherever it stands. *)
Lemma includes_app (pre p post : string) : includes (pre ++ p ++ post) p = true.
Proof.
  induction pre as [| c pre IH].
  - change ("" ++ p ++ post) with (p ++ post).
    destruct (p ++ post) eqn:E; cbn [includes]; rewrite <- E, prefix_app; reflexivity.
  - change (String c pre ++ p ++ post) with (String c (pre ++ p ++ post)).
    cbn [includes]. rewrite IH. apply orb_true_r.
Qed.

(** X17. An error whose message mentions [gh: command not found] anywhere
    is answered with the hint to install the GitHub CLI, before any other
    hint, by the handlers of the snapshot tool and the comment tool, and by
    the handler of the review tool when the message carries no object of
    the API (the review tool looks for one first).  A message that
    mentions [401], and not the former, is answered with the hint to log
    in by the comment tool and, under the same condition, the review tool;
    the snapshot tool does not look for [401] and passes such a message
    through unless it mentions [not logged in] or [Could not resolve].  A
    thrown value that is no [Error] is answered with
    [An unknown error occurred] by all three. *)
Theorem error_hints (w : World) (parsed : PrReference) :
  (forall pre post,
      let message := pre ++ "gh: command not found" ++ post in
      SnapshotTool.on_error parsed (JsError message)
      = error_object "GitHub CLI (gh) is not installed. Please install it from https://cli.github.com/" /\
      CommentsTool.on_error (JsError message)
      = error_object "GitHub CLI (gh) is not installed. Please install it from https://cli.github.com/" /\
      (ReviewTool.api_error_result w message = None ->
       ReviewTool.on_error w (JsError message)
       = error_object "GitHub CLI (gh) is not installed. Please install it from https://cli.github.com/")) /\
  (forall pre post,
      let message := pre ++ "401" ++ post in
      includes message "gh: command not found" = false ->
      CommentsTool.on_error (JsError message)
      = error_object "Not authenticated with GitHub. Please run 'gh auth login' first." /\
      (ReviewTool.api_error_result w message = None ->
       ReviewTool.on_error w (JsError message)
       = error_object "Not authenticated with GitHub. Please run 'gh auth login' first.") /\
      (includes message "not logged in" = false ->
       includes message "Could not resolve" = false ->
       SnapshotTool.on_error parsed (JsError message) = error_object message)) /\
  (SnapshotTool.on_error parsed NonError = error_object "An unknown error occurred" /\
   CommentsTool.on_error NonError = error_object "An unknown error occurred" /\
   ReviewTool.on_error w NonError = error_object "An unknown error occurred").
Proof.
  split; [| split; [| repeat split]].
  - intros pre post message.
    unfold SnapshotTool.on_error, CommentsTool.on_error, ReviewTool.on_error,
      ReviewTool.generic_error.
    unfold message. rewrite (includes_app pre "gh: command not found" post).
    split; [reflexivity | split; [reflexivity |]].
    intros ->. reflexivity.
  - intros pre post message Hn. subst message.
    unfold SnapshotTool.on_error, CommentsTool.on_error, ReviewTool.on_error,
      ReviewTool.generic_error.
    rewrite Hn, (includes_app pre "401" post), !orb_true_r.
    split; [reflexivity | split; [intros ->; reflexivity |]].
    intros H1 H2. now rewrite H1, H2.
Qed.

Lemma error_hints_witness :
  CommentsTool.on_error (JsError "gh: HTTP 401: Bad credentials")
  = error_object "Not authenticated with GitHub. Please run 'gh auth login' first." /\
  ReviewTool.on_error example_world (JsError "gh: HTTP 401: Bad credentials")
  = error_object "Not authenticated with GitHub. Please run 'gh auth login' first." /\
  SnapshotTool.on_error (mkRef "" "" (Int 7)) (JsError "gh: HTTP 401: Bad credentials")
  = error_object "gh: HTTP 401: Bad credentials" /\
  ReviewTool.on_error example_world (JsError "bash: gh: command not found")
  = error_object "GitHub CLI (gh) is not installed. Please install it from https://cli.github.com/".
Proof.
  destruct (proj1 (proj2 (error_hints example_world (mkRef "" "" (Int 7))))
              "gh: HTTP " ": Bad credentials" eq_refl) as [H1 [H2 H3]].
  destruct (proj1 (error_hints example_world (mkRef "" "" (Int 7)))
              "bash: " "") as [_ [_ H4]].
  split; [exact H1 |].
  split; [exact (H2 eq_refl) |].
  split; [exact (H3 eq_refl eq_refl) | exact (H4 eq_refl)].
Defined.

End ErrorHints.

(* ================================================================== *)
(** * Dry run and submission side by side *)

Section DryRunPredicts.
Import ReviewTool Spec Props.

Lemma with_dryRun_parse (flag : bool) (args : Args) :
  parsePrReference (a_pr (with_dryRun flag args)) (a_repo (with_dryRun flag args))
  = parsePrReference (a_pr args) (a_repo args).
Proof. reflexivity. Qed.




End DryRunPredicts.

(* ================================================================== *)
(** * Failing lookups of the review tool *)

Section LookupFailures.
Import ReviewTool Spec Props.

(** X19. When the reference names no repository and [gh repo view] fails,
    both the review tool and the comment tool return the error
    [Could not determine repository...] after that single invocation.
    When the head commit cannot be read, the review tool returns
    [Could not fetch PR details:] followed by the message of the error
    ([unknown error] for a thrown value that is no [Error]) and stops:
    nothing is posted. *)
Theorem lookup_failures (w : World) (args : Args) (parsed : PrReference) :
  parsePrReference (a_pr args) (a_repo args) = Ok parsed ->
  (resolved_context parsed w = None ->
   run (execute args) w
   = (Ok (error_object "Could not determine repository. Please provide the full PR URL or run from within a git repository."),
      [RepoView]) /\
   run (CommentsTool.execute (a_pr args) (a_repo args)) w
   = (Ok (error_object "Could not determine repository. Please provide the full PR URL or run from within a git repository."),
      [RepoView])) /\
  (forall ctx e,
      resolved_context parsed w = Some ctx ->
      api_head_sha w ctx (number parsed) = Throw e ->
      run (execute args) w
      = (Ok (error_object
               ("Could not fetch PR details: "
                ++ match e with JsError message => message | NonError => "unknown error" end)),
         (context_calls parsed ++ [ApiHeadSha ctx (number parsed)])%list)).
Proof.
  intro Hp. split.
  - intro Hn.
    assert (Hc : context_calls parsed = [RepoView]).
    { unfold resolved_context in Hn. unfold context_calls.
      destruct (truthy (owner parsed) && truthy (repo parsed));
        [discriminate Hn | reflexivity]. }
    split.
    + now rewrite (review_execute_run w args parsed Hp), Hn, Hc.
    + unfold run, CommentsTool.execute, Gh.bind at 1, lift. rewrite Hp.
      unfold Gh.bind at 1. rewrite comments_context_run, Hn, Hc. reflexivity.
  - intros ctx e Hc Hs.
    rewrite (review_execute_run w args parsed Hp), Hc. cbv zeta. rewrite Hs.
    destruct e; reflexivity.
Qed.

Lemma lookup_failures_witness :
  run (execute (mkArgs "7" None "Looks good" None None None))
      (broken_world (Throw NonError) NonError)
  = (Ok (error_object "Could not determine repository. Please provide the full PR URL or run from within a git repository."),
     [RepoView]) /\
  run (execute (mkArgs "7" None "Looks good" None None None))
      (broken_world (Ok "octo/cat") (JsError "HTTP 404"))
  = (Ok (error_object "Could not fetch PR details: HTTP 404"),
     [RepoView; ApiHeadSha "octo/cat" (Int 7)]).
Proof.
  split.
  - exact (proj1 (proj1 (lookup_failures (broken_world (Throw NonError) NonError)
                           (mkArgs "7" None "Looks good" None None None)
                           (mkRef "" "" (Int 7)) eq_refl) eq_refl)).
  - exact (proj2 (lookup_failures (broken_world (Ok "octo/cat") (JsError "HTTP 404"))
                    (mkArgs "7" None "Looks good" None None None)
                    (mkRef "" "" (Int 7)) eq_refl)
             "octo/cat" (JsError "HTTP 404") eq_refl eq_refl).
Defined.

End LookupFailures.

(* ================================================================== *)
(** * White space around the answers of [gh] *)

Section Trimming.
Import ReviewTool Spec Props.

Lemma trimStart_spaces (ws s : string) :
  all_chars is_space ws = true -> starts_with_space s = false ->
  trimStart (ws ++ s) = s.
Proof.
  intros Hw Hs. induction ws as [| c ws IH].
  - destruct s as [| d s]; [reflexivity |]. simpl in Hs. simpl. now rewrite Hs.
  - cbn [all_chars] in Hw. apply andb_true_iff in Hw. destruct Hw as [Hc Hw].
    change (String c ws ++ s) with (String c (ws ++ s)).
    cbn [trimStart]. rewrite Hc. now apply IH.
Qed.

Lemma trimEnd_all_spaces (ws : string) :
  all_chars is_space ws = true -> trimEnd ws = "".
Proof.
  induction ws as [| c ws IH]; intro H; [reflexivity |].
  cbn [all_chars] in H. apply andb_true_iff in H. destruct H as [Hc Hw].
  cbn [trimEnd]. now rewrite (IH Hw), Hc.
Qed.

Lemma trimEnd_spaces (s ws : string) :
  all_chars is_space ws = true -> ends_with_space s = false ->
  trimEnd (s ++ ws) = s.
Proof.
  intros Hw. induction s as [| c s IH]; intro Hs.
  - now apply trimEnd_all_spaces.
  - change (String c s ++ ws) with (String c (s ++ ws)). cbn [trimEnd].
    destruct s as [| d s].
    + cbn [append]. rewrite (trimEnd_all_spaces ws Hw).
      cbn [ends_with_space] in Hs. now rewrite Hs.
    + rewrite IH by exact Hs. reflexivity.
Qed.

Lemma starts_with_space_app (s t : string) :
  s <> "" -> starts_with_space (s ++ t) = starts_with_space s.
Proof. destruct s; [congruence | reflexivity]. Qed.

(** X20. White space around an answer of [gh] is dropped: when the output
    is a text without white space at its ends, surrounded by blanks, tabs
    or line ends, the tools use that text.  So the repository read from
    [gh repo view] and the commit id posted with a review are the bare
    values, without the line end [gh] prints. *)
Theorem surrounding_space_dropped (ws1 core ws2 : string) :
  all_chars is_space ws1 = true -> all_chars is_space ws2 = true ->
  trimmed core ->
  trim (ws1 ++ core ++ ws2) = core /\
  (forall w parsed,
      repository_left_open parsed ->
      repo_view w = Ok (ws1 ++ core ++ ws2) ->
      resolved_context parsed w = Some core) /\
  (forall body event comments,
      field "commit_id"
        (reviewPayload (trim (ws1 ++ core ++ ws2)) body event comments)
      = Some (JStr core)).
Proof.
  intros H1 H2 [Hs He].
  assert (T : trim (ws1 ++ core ++ ws2) = core).
  { unfold trim. destruct core as [| c core].
    - cbn [append]. clear Hs He.
      assert (A : trimStart (ws1 ++ ws2) = trimStart ws2).
      { induction ws1 as [| c ws1 IH]; [reflexivity |].
        cbn [all_chars] in H1. apply andb_true_iff in H1. destruct H1 as [Hc H1].
        change (String c ws1 ++ ws2) with (String c (ws1 ++ ws2)).
        cbn [trimStart]. rewrite Hc. now apply IH. }
      rewrite A. clear A H1.
      induction ws2 as [| c ws2 IH]; [reflexivity |].
      cbn [all_chars] in H2. apply andb_true_iff in H2. destruct H2 as [Hc H2].
      cbn [trimStart]. rewrite Hc. now apply IH.
    - rewrite trimStart_spaces; [now apply trimEnd_spaces | exact H1 |].
      now rewrite starts_with_space_app. }
  split; [exact T |]. split.
  - intros w parsed [Ho _] Hv. unfold resolved_context.
    rewrite Ho, Hv. cbn [truthy andb]. now rewrite T.
  - intros body event comments. now rewrite T.
Qed.

Lemma surrounding_space_dropped_witness :
  trim ("octo/cat" ++ newline) = "octo/cat".
Proof.
  apply (surrounding_space_dropped "" "octo/cat" newline).
  - reflexivity.
  - reflexivity.
  - split; reflexivity.
Defined.

End Trimming.
